(** * pjdfstest: migration bookkeeping scripts

    A shallow embedding of the three Python scripts that track the rewrite
    of the legacy test suite:

    - [book/compatibility_report.py]: reconciles the legacy manifest with
      the Rust sources and prints a per-syscall HTML report;
    - [create_issues.py]: builds one task list per test directory and
      files it with the issue tracker client;
    - [book/list_features.py] is plain output reformatting and is not
      modelled.

    Python [str] values are modelled as [string] (one [ascii] per code
    point), Python sets as [gset], the [syscalls] dictionary as a [gmap],
    and exceptions as the [Raise] case of a small error monad.  The file
    system is a finite map from paths to the text of the readable files;
    the text is what Python's text mode hands out, that is after newline
    translation. *)

From Stdlib Require Import Ascii String ssreflect.
From stdpp Require Import gmap strings list sorting pretty.

Local Open Scope string_scope.
Set Warnings "-clear-no-such-hyp".

(** ** Exceptions *)

Inductive exn :=
  | OSError             (* open() of a path that cannot be read *)
  | ValueError          (* tuple unpacking with the wrong arity *)
  | IndexError          (* tuple index out of range *)
  | CalledProcessError. (* subprocess.check_output, non-zero exit *)

Inductive result (A : Type) :=
  | Ok (a : A)
  | Raise (e : exn).
Arguments Ok {A} a.
Arguments Raise {A} e.

Global Instance result_ret : MRet result := λ A a, Ok a.
Global Instance result_bind : MBind result := λ A B k r,
  match r with
  | Ok a => k a
  | Raise e => Raise e
  end.

(** ** Python string primitives *)

Module Str.

Definition newline : ascii := "010"%char.
Definition tab : ascii := "009"%char.
Definition slash : ascii := "/"%char.
Definition dquote : ascii := "034"%char.

(** [s.startswith(p)] *)
Fixpoint startswith (s p : string) {struct p} : bool :=
  match p, s with
  | "", _ => true
  | String _ _, "" => false
  | String a p', String b s' => bool_decide (a = b) && startswith s' p'
  end.

(** [s.endswith(p)] *)
Definition endswith (s p : string) : bool :=
  startswith (String.rev s) (String.rev p).

(** [sub in s] *)
Fixpoint contains (sub s : string) : bool :=
  startswith s sub ||
  match s with
  | "" => false
  | String _ s' => contains sub s'
  end.

(** Iterating over a text file: the content is cut after every newline,
    each line keeps its terminator, and a last line without terminator
    is yielded when it is not empty. *)
Fixpoint readlines (s : string) : list string :=
  match s with
  | "" => []
  | String c s' =>
      if bool_decide (c = newline) then String c "" :: readlines s'
      else match readlines s' with
           | [] => [String c ""]
           | l :: ls => String c l :: ls
           end
  end.

(** [s.split(sep)] for a separator of one character, the only form the
    scripts use: every occurrence of [sep] cuts, empty fields are kept,
    and the result is never empty. *)
Fixpoint split (sep : ascii) (s : string) : list string :=
  match s with
  | "" => [""]
  | String c s' =>
      if bool_decide (c = sep) then "" :: split sep s'
      else match split sep s' with
           | [] => [String c ""]
           | l :: ls => String c l :: ls
           end
  end.

(** Number of occurrences of a character. *)
Fixpoint count (c : ascii) (s : string) : nat :=
  match s with
  | "" => 0
  | String a s' => ((if bool_decide (a = c) then 1 else 0) + count c s')%nat
  end.

(** [s[:n]] and [s[n:]] for [0 <= n]. *)
Fixpoint take (n : nat) (s : string) : string :=
  match n, s with
  | S n', String c s' => String c (take n' s')
  | _, _ => ""
  end.

Fixpoint drop (n : nat) (s : string) : string :=
  match n, s with
  | S n', String _ s' => drop n' s'
  | _, _ => s
  end.

(** [s[i:-j]] for [0 <= i] and [0 < j]: the end index [-j] stands for
    [len(s) - j], clipped at 0, and an empty range gives the empty
    string. *)
Definition slice_neg (i j : nat) (s : string) : string :=
  drop i (take (String.length s - j) s).

(** Characters [str.strip()] removes, among the code points below 256. *)
Definition isspace (c : ascii) : bool :=
  let n := nat_of_ascii c in
  bool_decide (9 ≤ n ≤ 13)%nat || bool_decide (28 ≤ n ≤ 32)%nat
  || bool_decide (n = 133%nat) || bool_decide (n = 160%nat).

Fixpoint lstrip (s : string) : string :=
  match s with
  | "" => ""
  | String c s' => if isspace c then lstrip s' else s
  end.

Definition strip (s : string) : string :=
  String.rev (lstrip (String.rev (lstrip s))).

End Str.

(** ** book/compatibility_report.py *)

(** The files [open] can read in text mode, with their text. *)
Abbreviation filesystem := (gmap string string).

Definition open (fs : filesystem) (file_path : string) : result string :=
  match fs !! file_path with
  | Some content => Ok content
  | None => Raise OSError
  end.

(** [get_tests_filenames_from_spec]: one tuple per line of the manifest,
    the line split on tabs as it is. *)
Definition get_tests_filenames_from_spec (fs : filesystem) (tests_list : string)
  : result (list (list string)) :=
  content ← open fs tests_list;
  Ok (Str.split Str.tab <$> Str.readlines content).

(** [os.path.join(root, file)] on POSIX. *)
Definition path_join (root file : string) : string :=
  if Str.startswith file "/" then file
  else if bool_decide (root = "") || Str.endswith root "/" then root +:+ file
  else root +:+ "/" +:+ file.

(** [get_rust_files], from the triples [(root, dirs, files)] that
    [os.walk(rust_dir)] yields. *)
Definition get_rust_files (walk : list (string * list string * list string))
  : list string :=
  '(root, _, files) ← walk;
  file ← files;
  if Str.endswith file ".rs" then [path_join root file] else [].

(** [search_string_in_file] *)
Definition search_string_in_file (fs : filesystem) (file_path string : string)
  : result bool :=
  content ← open fs file_path;
  Ok (existsb (Str.contains string) (Str.readlines content)).

(** [any(search_string_in_file(rust_file, test) for rust_file in rust_files)]:
    the generator is consumed up to the first [True]. *)
Fixpoint any_search (fs : filesystem) (rust_files : list string) (test : string)
  : result bool :=
  match rust_files with
  | [] => Ok false
  | rust_file :: rest =>
      found ← search_string_in_file fs rust_file test;
      if found : bool then Ok true else any_search fs rest test
  end.

(** The loop of [get_tests_with_and_without_rust_files], started from the
    two sets built so far. *)
Fixpoint reconcile_loop (fs : filesystem) (rust_files : list string)
    (tests_files : list string) (acc : gset string * gset string)
  : result (gset string * gset string) :=
  match tests_files with
  | [] => Ok acc
  | test :: rest =>
      found ← any_search fs rust_files test;
      reconcile_loop fs rust_files rest
        (if found : bool then ({[test]} ∪ acc.1, acc.2) else (acc.1, {[test]} ∪ acc.2))
  end.

(** [get_tests_with_and_without_rust_files]: [rust_files] is a set, walked
    in the order [elements] gives. *)
Definition get_tests_with_and_without_rust_files (fs : filesystem)
    (walk : list (string * list string * list string)) (tests_files : list string)
  : result (gset string * gset string) :=
  let rust_files : gset string := list_to_set (get_rust_files walk) in
  reconcile_loop fs (elements rust_files) tests_files (∅, ∅).

(** [find_file_description], on the lines of the opened file. *)
Fixpoint find_desc_in_lines (lines : list string) : string :=
  match lines with
  | [] => ""
  | line :: rest =>
      if Str.startswith line "desc="
      then Str.strip (Str.slice_neg (String.length ("desc=" +:+ String Str.dquote "")) 2 line)
      else find_desc_in_lines rest
  end.

Definition find_file_description (fs : filesystem) (file_path : string)
  : result string :=
  content ← open fs file_path;
  Ok (find_desc_in_lines (Str.readlines content)).

(** The [Test] dataclass. *)
Record Test := mkTest {
  name : string;
  has_rust_file : bool;
  description : string;
}.

(** [v[0]] on a tuple. *)
Definition tuple_first (v : list string) : result string :=
  match v with
  | x :: _ => Ok x
  | [] => Raise IndexError
  end.

(** One turn of the grouping loop of [main]: both unpackings raise
    [ValueError] unless there are exactly two values. *)
Definition group_record (tests_with_rust_files : gset string)
    (syscalls : gmap string (list Test)) (record : list string)
  : result (gmap string (list Test)) :=
  match record with
  | [testfile; desc] =>
      match Str.split Str.slash testfile with
      | [syscall; test_name] =>
          let syscalls :=
            match syscalls !! syscall with
            | None => <[syscall := []]> syscalls
            | Some _ => syscalls
            end in
          let test :=
            mkTest test_name (bool_decide (testfile ∈ tests_with_rust_files)) desc in
          Ok (alter (λ tests, (tests ++ [test])%list) syscall syscalls)
      | _ => Raise ValueError
      end
  | _ => Raise ValueError
  end.

Fixpoint group_loop (tests_with_rust_files : gset string)
    (tests_files : list (list string)) (syscalls : gmap string (list Test))
  : result (gmap string (list Test)) :=
  match tests_files with
  | [] => Ok syscalls
  | record :: rest =>
      syscalls ← group_record tests_with_rust_files syscalls record;
      group_loop tests_with_rust_files rest syscalls
  end.

(** Python's sort is stable and ascending; on a total preorder of keys a
    stable sort has one possible result, which this insertion sort
    computes: an element goes before the first one whose key is not
    smaller, so it stays before the later elements with the same key. *)
Fixpoint insert_by {A} (key : A → string) (x : A) (l : list A) : list A :=
  match l with
  | [] => [x]
  | y :: l' =>
      if String.leb (key x) (key y) then x :: l else y :: insert_by key x l'
  end.

Definition sorted_by {A} (key : A → string) (l : list A) : list A :=
  foldr (insert_by key) [] l.

(** [sorted(syscalls.items())]: the pairs are compared on the syscall
    alone, since two items of a dictionary never have the same key. *)
Definition sorted_items (syscalls : gmap string (list Test))
  : list (string * list Test) :=
  sorted_by fst (map_to_list syscalls).

(** [sum(1 for t in tests if t.has_rust_file)] *)
Definition progress_value (tests : list Test) : nat :=
  sum_list ((λ _, 1%nat) <$> filter (λ t, has_rust_file t = true) tests).

Definition summary_line (syscall : string) (tests : list Test) : string :=
  "<summary>" +:+ syscall +:+ " <progress value='" +:+ pretty (progress_value tests)
  +:+ "' " +:+ "max='" +:+ pretty (length tests) +:+ "'></progress></summary>".

Definition description_cell (test : Test) : string :=
  "<td>" +:+ description test +:+ "</td>".

Definition render_row (test : Test) : list string :=
  [ "<tr>";
    "<td>" +:+ name test +:+ "</td>";
    description_cell test;
    "<td>" +:+ (if has_rust_file test then "Yes" else "No") +:+ "</td>";
    "</tr>" ].

(** The body of the printing loop for one item, after [tests.sort]: the
    strings handed to [print], in order. *)
Definition render_block (syscall : string) (tests : list Test) : list string :=
  ([ "<details>"; summary_line syscall tests;
     "<table>"; "<tr>"; "<th>Test</th>"; "<th>Description</th>";
     "<th>Converted</th>"; "</tr>" ]
   ++ (tests ≫= render_row)
   ++ [ "</table>"; "</details>"; "" ])%list.

(** The blocks of the report: the items in sorted order, each with its
    tests sorted by name. *)
Definition report_blocks (syscalls : gmap string (list Test))
  : list (string * list Test) :=
  (λ item, (item.1, sorted_by name item.2)) <$> sorted_items syscalls.

Definition render (syscalls : gmap string (list Test)) : list string :=
  '(syscall, tests) ← report_blocks syscalls; render_block syscall tests.

(** What the script sees of the machine: the readable files and the
    listing [os.walk] gives for a directory. *)
Record World := mkWorld {
  files : filesystem;
  walk : string → list (string * list string * list string);
}.

Definition rust_dir : string := "../../rust/src/tests".
Definition tests_dir : string := "../old_testcases.tsv".

(** [main] up to the end of the grouping loop: the values of the local
    variables [tests_with_rust_files] and [syscalls] there.  [tests_files]
    is a set of tuples; both loops over it follow [elements].  The first
    fields are taken before the reconciliation rather than during it,
    which changes nothing since [tuple_first] succeeds on every tuple
    [split] makes. *)
Definition main_locals (w : World)
  : result (gset string * gmap string (list Test)) :=
  records ← get_tests_filenames_from_spec (files w) tests_dir;
  let tests_files : gset (list string) := list_to_set records in
  ids ← mapM tuple_first (elements tests_files);
  sets ← get_tests_with_and_without_rust_files (files w) (walk w rust_dir) ids;
  let tests_with_rust_files := sets.1 in
  syscalls ← group_loop tests_with_rust_files (elements tests_files) ∅;
  Ok (tests_with_rust_files, syscalls).

(** [main]: the strings printed and the exception that ended the run, if
    any.  Every [print] comes after the last statement that can raise. *)
Definition main (w : World) : list string * option exn :=
  match main_locals w with
  | Ok (_, syscalls) => (render syscalls, None)
  | Raise e => ([], Some e)
  end.

(** ** create_issues.py *)

Module Issues.

(** The fragment of regular expressions the script uses: literal
    characters and one capturing group [(.*?)], a lazy run of
    characters other than the newline. *)
Inductive re_item :=
  | RChar (c : ascii)
  | RGroupLazyAny.

(** The pattern of the script: [desc=], a quote, the group [(.*?)], a
    quote. *)
Definition desc_pattern : list re_item :=
  [ RChar "d"; RChar "e"; RChar "s"; RChar "c"; RChar "=";
    RChar Str.dquote; RGroupLazyAny; RChar Str.dquote ].

(** Backtracking match of a pattern at the start of [s]; the result is
    the text of the group.  The lazy group first tries the rest of the
    pattern and takes one more character only when that fails. *)
Fixpoint match_here (p : list re_item) (s : string) : option string :=
  match p with
  | [] => Some ""
  | RChar c :: p' =>
      match s with
      | String a s' => if bool_decide (a = c) then match_here p' s' else None
      | "" => None
      end
  | RGroupLazyAny :: p' =>
      (fix lazy (s : string) : option string :=
         match match_here p' s with
         | Some _ => Some ""
         | None =>
             match s with
             | String a s' =>
                 if bool_decide (a = Str.newline) then None
                 else String a <$> lazy s'
             | "" => None
             end
         end) s
  end.

(** [re.search(p, s)]: the match at the leftmost position that has one;
    [None] when no position has. *)
Fixpoint re_search (p : list re_item) (s : string) : option string :=
  match match_here p s with
  | Some g => Some g
  | None =>
      match s with
      | String _ s' => re_search p s'
      | "" => None
      end
  end.

(** [match.group(1) if match else 'Unknown description'], on the header
    of a file. *)
Definition header_description (header : string) : string :=
  match re_search desc_pattern header with
  | Some g => g
  | None => "Unknown description"
  end.

(** [open(path).read(600)] *)
Definition read_header (fs : filesystem) (path : string) : result string :=
  content ← open fs path;
  Ok (Str.take 600 content).

Definition task_line (file description : string) : string :=
  "- [ ] " +:+ file +:+ " | " +:+ description.

(** The inner loop: the task list of one directory. *)
Fixpoint build_task_list (fs : filesystem) (syscall : string)
    (files : list string) : result (list string) :=
  match files with
  | [] => Ok []
  | file :: rest =>
      let path := "tests/" +:+ syscall +:+ "/" +:+ file in
      header ← read_header fs path;
      tasks ← build_task_list fs syscall rest;
      Ok (task_line file (header_description header) :: tasks)
  end.

Definition nl : string := String Str.newline "".

(** [issue_template.format(syscall=syscall, task_list=task_list)] *)
Definition issue_template (syscall task_list : string) : string :=
  "# " +:+ syscall +:+ nl +:+ nl
  +:+ "This issue tracks the progress of the rewrite for the " +:+ syscall
  +:+ " folder." +:+ nl +:+ nl +:+ task_list +:+ nl.

Definition milestone : string := "Rewrite tests".

Definition issue_cmd (syscall : string) (task_list : list string) : list string :=
  let title := "Rewrite " +:+ syscall +:+ " tests" in
  let labels := "rewrite" in
  let body := issue_template syscall (String.concat nl task_list) in
  [ "gh"; "issue"; "create"; "--title"; title; "--body"; body;
    "--label"; labels; "--milestone"; milestone ].

(** An entry of the listing [tree -J] prints. *)
#[warnings="-register-all"]
Inductive entry := Entry (type name : string) (contents : list entry).

Definition entry_type (e : entry) : string := let 'Entry t _ _ := e in t.
Definition entry_name (e : entry) : string := let 'Entry _ n _ := e in n.
Definition entry_contents (e : entry) : list entry := let 'Entry _ _ c := e in c.

(** A Python dictionary keeps its keys in the order of first insertion;
    setting a key that is present replaces the value in place. *)
Fixpoint dict_set {V} (k : string) (v : V) (d : list (string * V))
  : list (string * V) :=
  match d with
  | [] => [(k, v)]
  | (k', v') :: d' =>
      if bool_decide (k = k') then (k, v) :: d' else (k', v') :: dict_set k v d'
  end.

(** The dictionary comprehension that builds [files]. *)
Definition files_of_tree (contents : list entry) : list (string * list string) :=
  foldl (λ d folder,
           if bool_decide (entry_type folder = "directory")
           then dict_set (entry_name folder) (entry_name <$> entry_contents folder) d
           else d)
        [] contents.

(** What the script does to the outside, in order. *)
Inductive event :=
  | Run (cmd : list string)   (* subprocess.check_output(cmd) is started *)
  | Print (s : string)
  | Sleep (seconds : nat).

(** The tracker client: given how many calls came before and the
    command, its standard output when it exits with 0, [None] when it
    exits with another status. *)
Definition tracker := nat → list string → option string.

(** The dispatch loop over [files.items()]; [n] counts the calls made
    so far. *)
Fixpoint dispatch_loop (fs : filesystem) (gh : tracker) (n : nat)
    (items : list (string * list string)) : list event * result unit :=
  match items with
  | [] => ([], Ok ())
  | (syscall, files) :: rest =>
      match build_task_list fs syscall files with
      | Raise e => ([], Raise e)
      | Ok task_list =>
          let cmd := issue_cmd syscall task_list in
          match gh n cmd with
          | None => ([Run cmd], Raise CalledProcessError)
          | Some out =>
              let '(trace, r) := dispatch_loop fs gh (S n) rest in
              (Run cmd :: Print out :: Sleep 10 :: trace, r)
          end
      end
  end.

Definition create_issues (fs : filesystem) (gh : tracker)
    (contents : list entry) : list event * result unit :=
  dispatch_loop fs gh 0 (files_of_tree contents).

(** The commands started in a trace. *)
Definition runs (trace : list event) : list (list string) :=
  omap (λ e, match e with Run cmd => Some cmd | _ => None end) trace.

End Issues.

(** ** book/list_features.py *)

Module Features.

(** The line boundaries of [str.splitlines()] among the code points below
    256: line feed, vertical tab, form feed, carriage return, the file,
    group and record separators, and next line. *)
Definition is_linebreak (c : ascii) : bool :=
  let n := nat_of_ascii c in
  bool_decide (10 ≤ n ≤ 13)%nat || bool_decide (28 ≤ n ≤ 30)%nat
  || bool_decide (n = 133%nat).

Definition carriage_return : ascii := "013"%char.

(** [s.splitlines()]: the lines without their boundaries; a carriage
    return followed by a line feed is one boundary, and no empty line is
    added after a final boundary. *)
Fixpoint splitlines (s : string) : list string :=
  match s with
  | "" => []
  | String c s' =>
      if is_linebreak c then
        match s' with
        | String c' s'' =>
            if bool_decide (c = carriage_return) && bool_decide (c' = Str.newline)
            then "" :: splitlines s''
            else "" :: splitlines s'
        | "" => [""]
        end
      else
        match splitlines s' with
        | [] => [String c ""]
        | l :: ls => String c l :: ls
        end
  end.

(** [s.split(sep, 1)] for a separator that is not empty: the text before
    the first occurrence of [sep] and the text after it, or [s] alone when
    [sep] does not occur. *)
Fixpoint split_once (sep s : string) : list string :=
  if Str.startswith s sep then [""; Str.drop (String.length sep) s]
  else
    match s with
    | "" => [""]
    | String c s' =>
        match split_once sep s' with
        | [before; after] => [String c before; after]
        | _ => [s]
        end
    end.

Definition bullet (feature_name desc : string) : string :=
  "- **" +:+ feature_name +:+ "** - " +:+ desc.

(** The loop of [main]: what is printed, and the exception that ended the
    loop if one did.  A line is printed before the next one is split. *)
Fixpoint print_features (lines : list string) : list string * option exn :=
  match lines with
  | [] => ([], None)
  | line :: rest =>
      match split_once ": " line with
      | [feature_name; desc] =>
          let '(out, e) := print_features rest in
          (bullet feature_name desc :: out, e)
      | _ => ([], Some ValueError)
      end
  end.

(** How [subprocess.run] of the test binary ends: it cannot be started,
    or it exits with a status and an output.  The output is given as the
    text [decode()] makes of it, [None] when the bytes are not UTF-8. *)
Inductive run_outcome :=
  | CannotStart
  | Exited (returncode : Z) (stdout : option string).

(** [main]: [run] with [check=True] raises [CalledProcessError] on a
    status other than 0, and [OSError] when the binary cannot be started;
    [decode] raises [UnicodeDecodeError], which is a [ValueError]. *)
Definition main (proc : run_outcome) : list string * option exn :=
  match proc with
  | CannotStart => ([], Some OSError)
  | Exited returncode stdout =>
      if bool_decide (returncode = 0%Z) then
        match stdout with
        | Some text => print_features (splitlines text)
        | None => ([], Some ValueError)
        end
      else ([], Some CalledProcessError)
  end.

End Features.

(** * Vocabulary of the properties

    The predicates the statements below are written with, and the
    concrete inputs they are tried on. *)

Definition is_substring (sub s : string) : Prop :=
  ∃ pre post, s = pre +:+ sub +:+ post.

(** A file of the corpus covers a test id when one of its lines contains
    the id. *)
Definition covers (fs : filesystem) (rust_file test : string) : Prop :=
  ∃ content line,
    fs !! rust_file = Some content ∧ line ∈ Str.readlines content
    ∧ is_substring test line.

Definition covered_by (fs : filesystem) (rust_files : list string)
    (test : string) : Prop :=
  ∃ rust_file, rust_file ∈ rust_files ∧ covers fs rust_file test.

Definition readable (fs : filesystem) (paths : list string) : Prop :=
  ∀ p, p ∈ paths → is_Some (fs !! p).

(** A small corpus used to exercise the statements below: one Rust file
    that mentions [open/01.t], and a manifest of two tests. *)
Definition sample_walk (dir : string)
  : list (string * list string * list string) :=
  [ (dir, ["open"], ["mod.rs"; "README.md"]);
    (dir +:+ "/open", [], ["first.rs"]) ].

Definition sample_files : filesystem :=
  {[ "../old_testcases.tsv" :=
       "open/01.t" +:+ String Str.tab "Opens a file" +:+ String Str.newline ""
       +:+ "open/02.t" +:+ String Str.tab "Opens a dir" +:+ String Str.newline "";
     "../../rust/src/tests/mod.rs" := "mod open;" +:+ String Str.newline "";
     "../../rust/src/tests/open/first.rs" :=
       "// " +:+ String Str.newline "" +:+ "// port of open/01.t"
       +:+ String Str.newline "" +:+ "fn first() {}" ]}.

Definition sample_world : World := mkWorld sample_files sample_walk.

Definition ends_with_newline (s : string) : Prop :=
  ∃ s0, s = s0 +:+ String Str.newline "".

(** The records the loop accepts: two fields, the first with one slash. *)
Definition well_formed (record : list string) : Prop :=
  ∃ testfile desc syscall test_name,
    record = [testfile; desc]
    ∧ Str.split Str.slash testfile = [syscall; test_name].

(** The entry a record contributes to the list of syscall [k]. *)
Definition record_test (cov : gset string) (k : string) (record : list string)
  : option Test :=
  match record with
  | [testfile; desc] =>
      match Str.split Str.slash testfile with
      | [syscall; test_name] =>
          if bool_decide (syscall = k)
          then Some (mkTest test_name (bool_decide (testfile ∈ cov)) desc)
          else None
      | _ => None
      end
  | _ => None
  end.

(** The order the sort goes by: the order of the keys. *)
Definition key_le {A} (key : A → string) (x y : A) : Prop :=
  String.le (key x) (key y).

(** The tuples of the set [tests_files], in the order the loops follow. *)
Definition manifest_records (content : string) : list (list string) :=
  elements (list_to_set (C:=gset (list string))
              (Str.split Str.tab <$> Str.readlines content)).

(** The locals of [main] on the sample world. *)
Definition sample_locals : gset string * gmap string (list Test) :=
  match main_locals sample_world with
  | Ok locals => locals
  | Raise _ => (∅, ∅)
  end.

(** The sample world with another manifest. *)
Definition world_with_manifest (content : string) : World :=
  mkWorld (<[tests_dir := content]> sample_files) sample_walk.

Definition tab_line (id desc : string) : string :=
  id +:+ String Str.tab desc +:+ String Str.newline "".

(** A file with the descriptor in the middle of its only line. *)
Definition midline_file : string :=
  "  desc=" +:+ String Str.dquote "abc" +:+ String Str.dquote ""
  +:+ String Str.newline "".

(** The command of a directory whose files can all be read. *)
Definition command_of (fs : filesystem) (item : string * list string)
    (cmd : list string) : Prop :=
  ∃ task_list,
    Issues.build_task_list fs item.1 item.2 = Ok task_list
    ∧ cmd = Issues.issue_cmd item.1 task_list.

(** What a call that succeeds leaves in the trace. *)
Definition dispatched (call : list string * string) : list Issues.event :=
  [Issues.Run call.1; Issues.Print call.2; Issues.Sleep 10].

Definition is_directory (e : Issues.entry) : Prop :=
  Issues.entry_type e = "directory".

Definition directory_item (e : Issues.entry) : string * list string :=
  (Issues.entry_name e, Issues.entry_name <$> Issues.entry_contents e).

(** A listing with two directories and a file, and two tracker clients:
    one that always succeeds, one that fails from its second call on. *)
Definition sample_tree : list Issues.entry :=
  [ Issues.Entry "directory" "open"
      [Issues.Entry "file" "01.t" []; Issues.Entry "file" "02.t" []];
    Issues.Entry "file" "README" [];
    Issues.Entry "directory" "empty" [] ].

Definition sample_cmds : list (list string) :=
  [ Issues.issue_cmd "open"
      ["- [ ] 01.t | abc"; "- [ ] 02.t | Unknown description"];
    Issues.issue_cmd "empty" [] ].

Definition gh_ok : Issues.tracker := λ _ _, Some "created".
Definition gh_once : Issues.tracker :=
  λ n _, if bool_decide (n = 0%nat) then Some "created" else None.

(** Vocabulary for the descriptor search of the issue script. *)
Module IssuesSpec.

(** [desc=] and the quote, the text before the group of
    [desc_pattern]. *)
Definition desc_open : string := "desc=" +:+ String Str.dquote "".

(** An occurrence of the pattern at the start of [s]: [desc_open], a
    text without newline, and a quote. *)
Definition desc_at_start (s : string) : Prop :=
  ∃ g post, s = desc_open +:+ g +:+ String Str.dquote post
            ∧ Str.count Str.newline g = 0.

(** A header with two descriptors, and one with none. *)
Definition two_descs : string :=
  "# " +:+ desc_open +:+ "abc" +:+ String Str.dquote " "
  +:+ desc_open +:+ "zz" +:+ String Str.dquote "".

Definition sample_tests : filesystem :=
  {[ "tests/open/01.t" := two_descs; "tests/open/02.t" := "#!/bin/sh" ]}.

End IssuesSpec.

(** The format of a manifest line the report script accepts: a syscall
    and a test name around one slash, one tab, a description; no other
    slash before the tab and no other tab. *)
Definition manifest_line (line : string) : Prop :=
  ∃ syscall test_name desc,
    line = (syscall +:+ "/" +:+ test_name) +:+ String Str.tab desc
    ∧ Str.count Str.slash syscall = 0 ∧ Str.count Str.slash test_name = 0
    ∧ Str.count Str.tab syscall = 0 ∧ Str.count Str.tab test_name = 0
    ∧ Str.count Str.tab desc = 0.

(** The number of entries of a dictionary of lists, over all its keys. *)
Definition total_entries (syscalls : gmap string (list Test)) : nat :=
  sum_list_with (λ item, length item.2) (map_to_list syscalls).

(** Two test files with a descriptor line: one where it ends with a
    newline, and one where it is the last line and has none. *)
Definition desc_line_file : string :=
  "#!/bin/sh" +:+ String Str.newline ""
  +:+ "desc=" +:+ String Str.dquote " chmod works "
  +:+ String Str.dquote (String Str.newline "").

Definition desc_last_line_file : string :=
  "desc=" +:+ String Str.dquote "abc" +:+ String Str.dquote "".

(** The path the issue script opens for a file of a directory. *)
Definition test_path (syscall file : string) : string :=
  "tests/" +:+ syscall +:+ "/" +:+ file.

(** The task of a file: its line in the task list, made from the first
    600 characters of the file. *)
Definition task_of (fs : filesystem) (syscall file task : string) : Prop :=
  ∃ content,
    fs !! test_path syscall file = Some content
    ∧ task = Issues.task_line file
               (Issues.header_description (Str.take 600 content)).

(** The durations of the sleeps of a trace, in order. *)
Definition sleeps (trace : list Issues.event) : list nat :=
  omap (λ e, match e with Issues.Sleep s => Some s | _ => None end) trace.

(** The bullet of an output line of the test binary: the line is a name,
    a colon with a space, and a description, the name being the text
    before the first colon with a space. *)
Definition feature_bullet (line bullet : string) : Prop :=
  ∃ feature_name desc,
    line = feature_name +:+ ": " +:+ desc
    ∧ bullet = Features.bullet feature_name desc
    ∧ ∀ before after,
        line = before +:+ ": " +:+ after →
        (String.length feature_name ≤ String.length before)%nat.

(** A string none of whose characters is a line boundary. *)
Definition one_line (s : string) : Prop :=
  ∀ pre c post, s = pre +:+ String c post → Features.is_linebreak c = false.

(** * Properties *)

(** ** Strings *)

Lemma app_cons_string (a : ascii) (s1 s2 : string) :
  String a s1 +:+ s2 = String a (s1 +:+ s2).
Proof. done. Qed.

Lemma app_nil_l_string (s : string) : "" +:+ s = s.
Proof. done. Qed.

Lemma app_nil_r_string (s : string) : s +:+ "" = s.
Proof. induction s as [|a s IH]; [done|]. by rw app_cons_string IH. Qed.

Lemma app_assoc_string (s1 s2 s3 : string) :
  (s1 +:+ s2) +:+ s3 = s1 +:+ (s2 +:+ s3).
Proof. induction s1 as [|a s1 IH]; [done|]. by rw !app_cons_string IH. Qed.

Lemma startswith_spec (s p : string) :
  Str.startswith s p = true ↔ ∃ rest, s = p +:+ rest.
Proof.
  revert s. induction p as [|a p IH]; intros s; simpl.
  - split; [by exists s|done].
  - destruct s as [|b s].
    + split; [done|]. by intros [rest ?].
    + rw andb_true_iff bool_decide_eq_true IH. split.
      * intros [-> [rest ->]]. by exists rest.
      * intros [rest [= -> ->]]. eauto.
Qed.

Lemma contains_spec (sub s : string) :
  Str.contains sub s = true ↔ is_substring sub s.
Proof.
  unfold is_substring. induction s as [|b s IH].
  - rw /= orb_false_r startswith_spec. split.
    + intros [rest H]. by exists "", rest.
    + intros [[|??] [post H]]; [by exists post|done].
  - cbn [Str.contains]. rw orb_true_iff startswith_spec IH. split.
    + intros [[rest H]|(pre & post & ->)]; [by exists "", rest|].
      by exists (String b pre), post.
    + intros [[|a pre] [post H]]; [left; by exists post|].
      right. injection H as -> ->. by exists pre, post.
Qed.

(** ** The coverage reconciler *)

Lemma search_string_in_file_spec fs file_path test content :
  fs !! file_path = Some content →
  ∃ b, search_string_in_file fs file_path test = Ok b
       ∧ (b = true ↔ covers fs file_path test).
Proof.
  intros Hfs. unfold search_string_in_file, open. rw Hfs /=.
  eexists; split; [done|]. rw existsb_exists. split.
  - intros (line & Hin & Hc). exists content, line.
    by rw list_elem_of_In -contains_spec.
  - intros (content' & line & Hfs' & Hin & Hc). exists line.
    rw Hfs in Hfs'. injection Hfs' as <-.
    by rw -list_elem_of_In contains_spec.
Qed.

Lemma any_search_spec fs rust_files test :
  readable fs rust_files →
  ∃ b, any_search fs rust_files test = Ok b
       ∧ (b = true ↔ covered_by fs rust_files test).
Proof.
  induction rust_files as [|f rest IH]; intros Hr; simpl.
  - exists false. split; [done|]. split; [done|].
    by intros (f & ?%elem_of_nil & _).
  - destruct (Hr f) as [content Hfs]; [left|].
    destruct (search_string_in_file_spec fs f test content Hfs)
      as (b & -> & Hb); simpl.
    destruct b.
    + exists true. split; [done|]. split; [|done]. intros _.
      exists f. split; [left|]. by apply Hb.
    + destruct IH as (b' & -> & Hb').
      { intros p Hp. apply Hr. by right. }
      exists b'. split; [done|]. rw Hb'. split.
      * intros (f' & ? & ?). exists f'. split; [by right|done].
      * intros (f' & [->|?]%elem_of_cons & Hc); [|by exists f'].
        by apply Hb in Hc.
Qed.

(** The loop adds every test id to exactly one of the two sets. *)
Lemma reconcile_loop_spec fs rust_files tests_files acc :
  readable fs rust_files →
  ∃ cov uncov,
    reconcile_loop fs rust_files tests_files acc = Ok (cov, uncov)
    ∧ (∀ t, t ∈ cov ↔
            t ∈ acc.1 ∨ (t ∈ tests_files ∧ covered_by fs rust_files t))
    ∧ (∀ t, t ∈ uncov ↔
            t ∈ acc.2 ∨ (t ∈ tests_files ∧ ¬ covered_by fs rust_files t)).
Proof.
  intros Hr. revert acc.
  induction tests_files as [|test rest IH]; intros [a1 a2]; simpl.
  - exists a1, a2. split; [done|].
    split; intros t; set_solver.
  - destruct (any_search_spec fs rust_files test Hr) as (b & -> & Hb); simpl.
    destruct (IH (if b then ({[test]} ∪ a1, a2) else (a1, {[test]} ∪ a2)))
      as (cov & uncov & -> & Hcov & Huncov).
    exists cov, uncov. split; [done|].
    assert (covered_by fs rust_files test ↔ b = true) as Hc by done.
    split; intros t; [rw Hcov|rw Huncov]; destruct b; simpl;
      rw ?elem_of_union ?elem_of_singleton elem_of_cons.
    + naive_solver.
    + split; [naive_solver|].
      intros [?|[[->|?] Ht]]; [by left| |by right].
      by apply Hc in Ht.
    + split; [naive_solver|].
      intros [?|[[->|?] Ht]]; [by left| |by right].
      destruct Ht. by apply Hc.
    + split; [|naive_solver].
      intros [[->|?]|[? ?]]; [|by left|right; split; [by right|done]].
      right. split; [by left|]. by intros ?%Hc.
Qed.

Lemma rust_files_elements (walk : list (string * list string * list string)) f :
  f ∈ elements (list_to_set (C:=gset string) (get_rust_files walk))
  ↔ f ∈ get_rust_files walk.
Proof. by rw elem_of_elements elem_of_list_to_set. Qed.

Lemma covered_by_dec fs rust_files test :
  readable fs rust_files →
  covered_by fs rust_files test ∨ ¬ covered_by fs rust_files test.
Proof.
  intros Hr. destruct (any_search_spec fs rust_files test Hr) as ([] & _ & Hb).
  - left. by apply Hb.
  - right. by intros ?%Hb.
Qed.

Lemma readable_elements fs (walk : list (string * list string * list string)) :
  readable fs (get_rust_files walk) →
  readable fs (elements (list_to_set (C:=gset string) (get_rust_files walk))).
Proof. intros Hr p Hp. apply Hr. by apply rust_files_elements. Qed.

Lemma sample_readable :
  readable sample_files (get_rust_files (sample_walk rust_dir)).
Proof.
  intros p Hp. vm_compute in Hp.
  apply elem_of_cons in Hp as [->|Hp]; [by eexists|].
  apply list_elem_of_singleton in Hp as ->. by eexists.
Defined.

(** C1. With a readable corpus the reconciler returns, and a test id is in
    the covered set exactly when it is one of the candidates and some file
    of the corpus has a line containing the id as a substring. *)
Theorem covered_iff_line_contains fs walk tests_files :
  readable fs (get_rust_files walk) →
  ∃ cov uncov,
    get_tests_with_and_without_rust_files fs walk tests_files = Ok (cov, uncov)
    ∧ ∀ test, test ∈ cov ↔
        test ∈ tests_files
        ∧ ∃ rust_file content line,
            rust_file ∈ get_rust_files walk
            ∧ fs !! rust_file = Some content
            ∧ line ∈ Str.readlines content
            ∧ is_substring test line.
Proof.
  intros Hr%readable_elements. unfold get_tests_with_and_without_rust_files.
  destruct (reconcile_loop_spec fs _ tests_files (∅, ∅) Hr)
    as (cov & uncov & -> & Hcov & _).
  exists cov, uncov. split; [done|]. intros test. rw Hcov /=. split.
  - intros [?%not_elem_of_empty|[Hin (f & Hf & content & line & ? & ? & ?)]];
      [done|].
    split; [done|]. exists f, content, line. by rw -rust_files_elements.
  - intros [Hin (f & content & line & Hf & ? & ? & ?)]. right.
    split; [done|]. exists f. split; [by apply rust_files_elements|].
    by exists content, line.
Qed.

Lemma covered_iff_line_contains_witness :
  ∃ cov uncov,
    get_tests_with_and_without_rust_files sample_files (sample_walk rust_dir)
      ["open/01.t"; "open/02.t"] = Ok (cov, uncov)
    ∧ ∀ test, test ∈ cov ↔
        test ∈ ["open/01.t"; "open/02.t"]
        ∧ ∃ rust_file content line,
            rust_file ∈ get_rust_files (sample_walk rust_dir)
            ∧ sample_files !! rust_file = Some content
            ∧ line ∈ Str.readlines content
            ∧ is_substring test line.
Proof. apply covered_iff_line_contains, sample_readable. Defined.

(** Containment, not equality of tokens: [n/0] is reported as covered by
    the file that mentions [open/01.t]. *)
Example covered_by_substring :
  get_tests_with_and_without_rust_files sample_files (sample_walk rust_dir)
    ["n/0"; "open/02.t"]
  = Ok ({["n/0"]}, {["open/02.t"]}).
Proof. vm_compute. reflexivity. Qed.

(** C2. With a readable corpus the reconciler returns two sets whose
    union is the set of candidate ids and whose intersection is empty. *)
Theorem covered_uncovered_partition fs walk tests_files :
  readable fs (get_rust_files walk) →
  ∃ cov uncov,
    get_tests_with_and_without_rust_files fs walk tests_files = Ok (cov, uncov)
    ∧ cov ∪ uncov = list_to_set tests_files
    ∧ cov ∩ uncov = ∅.
Proof.
  intros Hr%readable_elements. unfold get_tests_with_and_without_rust_files.
  destruct (reconcile_loop_spec fs _ tests_files (∅, ∅) Hr)
    as (cov & uncov & -> & Hcov & Huncov).
  exists cov, uncov. split; [done|]. simpl in *.
  split; apply set_eq; intros t.
  - rw elem_of_union Hcov Huncov elem_of_list_to_set.
    destruct (covered_by_dec fs _ t Hr); set_solver.
  - rw elem_of_intersection Hcov Huncov. set_solver.
Qed.

Lemma covered_uncovered_partition_witness :
  ∃ cov uncov,
    get_tests_with_and_without_rust_files sample_files (sample_walk rust_dir)
      ["open/01.t"; "open/02.t"; "open/01.t"] = Ok (cov, uncov)
    ∧ cov ∪ uncov = list_to_set ["open/01.t"; "open/02.t"; "open/01.t"]
    ∧ cov ∩ uncov = ∅.
Proof. apply covered_uncovered_partition, sample_readable. Defined.

Example sample_report :
  main sample_world
  = ( [ "<details>";
        "<summary>open <progress value='1' max='2'></progress></summary>";
        "<table>"; "<tr>"; "<th>Test</th>"; "<th>Description</th>";
        "<th>Converted</th>"; "</tr>";
        "<tr>"; "<td>01.t</td>";
        "<td>Opens a file" +:+ String Str.newline "" +:+ "</td>";
        "<td>Yes</td>"; "</tr>";
        "<tr>"; "<td>02.t</td>";
        "<td>Opens a dir" +:+ String Str.newline "" +:+ "</td>";
        "<td>No</td>"; "</tr>";
        "</table>"; "</details>"; "" ],
      None ).
Proof. vm_compute. reflexivity. Qed.

(** ** Splitting *)

Lemma split_nonempty c s : Str.split c s ≠ [].
Proof.
  destruct s as [|a s]; simpl; [done|].
  case_bool_decide; [done|]. by destruct (Str.split c s).
Qed.

Lemma split_length c s : length (Str.split c s) = S (Str.count c s).
Proof.
  induction s as [|a s IH]; simpl; [done|].
  case_bool_decide; simpl; [by rw IH|].
  pose proof (split_nonempty c s).
  destruct (Str.split c s); [done|]. by rw -IH.
Qed.

Lemma split_one c s y :
  Str.split c s = [y] → s = y ∧ Str.count c y = 0.
Proof.
  revert y. induction s as [|a s IH]; intros y; simpl.
  - by intros [= <-].
  - pose proof (split_nonempty c s).
    case_bool_decide; [by destruct (Str.split c s)|].
    destruct (Str.split c s) as [|l ls]; [done|].
    intros [= <- ->]. destruct (IH l eq_refl) as [-> ?].
    split; [done|]. simpl. by rw bool_decide_false.
Qed.

(** A split in two fields: the string is the two fields around the one
    separator it has. *)
Lemma split_two c s x y :
  Str.split c s = [x; y] →
  s = x +:+ String c y ∧ Str.count c x = 0 ∧ Str.count c y = 0.
Proof.
  revert x. induction s as [|a s IH]; intros x; simpl; [done|].
  case_bool_decide as Hc.
  - intros [= <- Hs]. subst a. by destruct (split_one c s y Hs) as [-> ?].
  - pose proof (split_nonempty c s).
    destruct (Str.split c s) as [|l ls] eqn:E; [done|].
    intros [= <- ->]. destruct (IH l eq_refl) as (-> & ? & ?).
    split; [done|]. split; [|done]. simpl. by rw bool_decide_false.
Qed.

Lemma split_two_iff c s :
  (∃ x y, Str.split c s = [x; y]) ↔ Str.count c s = 1.
Proof.
  pose proof (split_length c s) as Hl. split.
  - intros (x & y & Hs). rw Hs /= in Hl. lia.
  - intros Hc. rw Hc in Hl.
    destruct (Str.split c s) as [|x [|y [|??]]]; simplify_eq/=. eauto.
Qed.

(** The last field of a split keeps the end of the line. *)
Lemma split_last_newline c s :
  c ≠ Str.newline → ends_with_newline s →
  ∃ fields last,
    Str.split c s = (fields ++ [last])%list ∧ ends_with_newline last.
Proof.
  intros Hc. induction s as [|a s IH]; intros [s0 Hs].
  { by destruct s0. }
  destruct s0 as [|b s0];
    rw ?app_nil_l_string ?app_cons_string in Hs; injection Hs as -> ->; simpl.
  - rw bool_decide_false; [done|].
    exists [], (String Str.newline ""). split; [done|]. by exists "".
  - destruct IH as (fields & last & -> & Hl); [by exists s0|].
    case_bool_decide.
    + by exists ("" :: fields), last.
    + destruct fields as [|f fields]; simpl.
      * exists [], (String b last). split; [done|].
        destruct Hl as [l0 ->]. by exists (String b l0).
      * by exists (String b f :: fields), last.
Qed.

(** ** The grouping loop *)

Lemma group_record_raise cov m r :
  ¬ well_formed r → group_record cov m r = Raise ValueError.
Proof.
  intros Hwf. unfold group_record.
  destruct r as [|testfile [|desc [|??]]]; try done.
  destruct (Str.split Str.slash testfile) as [|syscall [|test_name [|??]]] eqn:E;
    try done.
  destruct Hwf. by exists testfile, desc, syscall, test_name.
Qed.

Lemma group_record_ok cov m r :
  well_formed r →
  ∃ m', group_record cov m r = Ok m'
    ∧ ∀ k, default [] (m' !! k)
           = (default [] (m !! k) ++ option_list (record_test cov k r))%list
         ∧ (is_Some (m' !! k) ↔
            is_Some (m !! k) ∨ is_Some (record_test cov k r)).
Proof.
  intros (testfile & desc & syscall & test_name & -> & Hs).
  unfold group_record, record_test. rw Hs. eexists. split; [done|].
  intros k. rw lookup_alter.
  destruct (decide (syscall = k)) as [<-|Hk].
  - rw (bool_decide_true (syscall = syscall)); [done|].
    destruct (m !! syscall) as [tests|] eqn:Hm.
    + rw Hm /=. split; [done|]. split; eauto.
    + rw lookup_insert_eq /=. split; [done|]. split; eauto.
  - rw (bool_decide_false (syscall = k)); [done|].
    destruct (m !! syscall) as [tests|] eqn:Hm.
    + rw app_nil_r. split; [done|]. split; [eauto|]. by intros [?|[? [=]]].
    + rw lookup_insert_ne; [done|]. rw app_nil_r. split; [done|].
      split; [eauto|]. by intros [?|[? [=]]].
Qed.

Lemma group_loop_raise cov rs m r :
  r ∈ rs → ¬ well_formed r → group_loop cov rs m = Raise ValueError.
Proof.
  revert m. induction rs as [|r' rs IH]; intros m Hin Hwf; [by inversion Hin|].
  simpl. destruct (group_record cov m r') as [m'|e] eqn:E.
  - apply elem_of_cons in Hin as [->|Hin]; [|by apply IH].
    by rw group_record_raise in E.
  - simpl. unfold group_record in E. by repeat case_match.
Qed.

Lemma group_loop_ok cov rs m :
  Forall well_formed rs →
  ∃ m', group_loop cov rs m = Ok m'
    ∧ ∀ k, default [] (m' !! k)
           = (default [] (m !! k) ++ omap (record_test cov k) rs)%list
         ∧ (is_Some (m' !! k) ↔
            is_Some (m !! k) ∨ omap (record_test cov k) rs ≠ []).
Proof.
  intros Hwf. revert m. induction Hwf as [|r rs Hr _ IH]; intros m; simpl.
  - exists m. split; [done|]. intros k. rw app_nil_r. naive_solver.
  - destruct (group_record_ok cov m r Hr) as (m1 & -> & H1). simpl.
    destruct (IH m1) as (m' & -> & H'). exists m'. split; [done|].
    intros k. destruct (H1 k) as [E1 S1], (H' k) as [E' S'].
    rw E' E1 S' S1 -app_assoc. split.
    + by destruct (record_test cov k r).
    + destruct (record_test cov k r); simpl; [|naive_solver].
      split; [naive_solver|]. intros _. left. right. eauto.
Qed.

Lemma well_formed_dec r : well_formed r ∨ ¬ well_formed r.
Proof.
  destruct r as [|testfile [|desc [|??]]];
    try (right; by intros (? & ? & ? & ? & [=] & _)).
  destruct (Str.split Str.slash testfile) as [|syscall [|test_name [|??]]] eqn:E;
    try (right; intros (? & ? & ? & ? & [= <- <-] & Hs); by rw E in Hs).
  left. by exists testfile, desc, syscall, test_name.
Qed.

Lemma group_loop_inv cov rs m m' :
  group_loop cov rs m = Ok m' → Forall well_formed rs.
Proof.
  intros Hg. apply Forall_forall. intros r Hin.
  destruct (well_formed_dec r) as [|Hn]; [done|].
  by rw (group_loop_raise cov rs m r) in Hg.
Qed.

(** ** Sorting *)

Section sorted_by.
Context {A : Type} (key : A → string).
Local Abbreviation key_le := (key_le key).

Lemma insert_by_Permutation x l : insert_by key x l ≡ₚ x :: l.
Proof.
  induction l as [|y l IH]; simpl; [done|].
  destruct (String.leb (key x) (key y)); [done|].
  by rw IH Permutation_swap.
Qed.

Lemma sorted_by_Permutation l : sorted_by key l ≡ₚ l.
Proof.
  induction l as [|x l IH]; simpl; [done|].
  by rw insert_by_Permutation IH.
Qed.

Lemma insert_by_HdRel z x l :
  key_le z x → HdRel key_le z l → HdRel key_le z (insert_by key x l).
Proof.
  intros Hzx [|y l' Hzy]; simpl; [by constructor|].
  destruct (String.leb (key x) (key y)); by constructor.
Qed.

Lemma insert_by_Sorted x l :
  Sorted key_le l → Sorted key_le (insert_by key x l).
Proof.
  induction 1 as [|y l Hs IH Hhd]; simpl; [by repeat constructor|].
  destruct (String.leb (key x) (key y)) eqn:E.
  - repeat constructor; [done..|]. unfold key_le, String.le. by rw E.
  - constructor; [done|]. apply insert_by_HdRel; [|done].
    destruct (total String.le (key x) (key y)) as [H|H]; [|done].
    unfold String.le in H. by rw E in H.
Qed.

Lemma sorted_by_Sorted l : Sorted key_le (sorted_by key l).
Proof.
  induction l as [|x l IH]; simpl; [constructor|by apply insert_by_Sorted].
Qed.

Global Instance key_le_trans : Transitive key_le.
Proof. intros x y z. unfold key_le. apply transitivity. Qed.

(** The keys of the sorted list ascend. *)
Lemma sorted_by_keys l : StronglySorted String.le (key <$> sorted_by key l).
Proof.
  apply (StronglySorted_fmap _ key_le); [done|].
  apply Sorted_StronglySorted; [apply _|apply sorted_by_Sorted].
Qed.
End sorted_by.




(** The blocks of the report are the entries of the dictionary, each
    with its list sorted. *)
Lemma elem_of_report_blocks (syscalls : gmap string (list Test)) k tests :
  (k, tests) ∈ report_blocks syscalls ↔
  ∃ tests0, syscalls !! k = Some tests0 ∧ tests = sorted_by name tests0.
Proof.
  unfold report_blocks, sorted_items. rw list_elem_of_fmap. split.
  - intros ([k' tests0] & [= -> ->] & Hin).
    rw sorted_by_Permutation in Hin. apply elem_of_map_to_list in Hin. eauto.
  - intros (tests0 & Hk & ->). exists (k, tests0). split; [done|].
    rw sorted_by_Permutation. by apply elem_of_map_to_list.
Qed.

(** ** The report *)

Lemma elem_of_manifest_records content r :
  r ∈ manifest_records content ↔
  ∃ line, line ∈ Str.readlines content ∧ r = Str.split Str.tab line.
Proof.
  unfold manifest_records.
  rw elem_of_elements elem_of_list_to_set list_elem_of_fmap. naive_solver.
Qed.

Lemma mapM_tuple_first (records : list (list string)) :
  (∀ r, r ∈ records → r ≠ []) → ∃ ids, mapM tuple_first records = Ok ids.
Proof.
  induction records as [|r rs IH]; intros Hne; simpl; [by eexists|].
  destruct r as [|x r]; [by destruct (Hne [] ltac:(left))|]. simpl.
  destruct IH as [ids ->]; [|by eexists].
  intros r' ?. apply Hne. by right.
Qed.

Lemma manifest_first_fields content :
  ∃ ids, mapM tuple_first (manifest_records content) = Ok ids.
Proof.
  apply mapM_tuple_first. intros r (line & _ & ->)%elem_of_manifest_records.
  apply split_nonempty.
Qed.

Lemma main_locals_inv w cov syscalls :
  main_locals w = Ok (cov, syscalls) →
  ∃ content ids uncov,
    files w !! tests_dir = Some content
    ∧ mapM tuple_first (manifest_records content) = Ok ids
    ∧ get_tests_with_and_without_rust_files (files w) (walk w rust_dir) ids
      = Ok (cov, uncov)
    ∧ group_loop cov (manifest_records content) ∅ = Ok syscalls.
Proof.
  unfold main_locals, get_tests_filenames_from_spec, open.
  destruct (files w !! tests_dir) as [content|] eqn:Hc; [|done]. simpl.
  fold (manifest_records content).
  destruct (manifest_first_fields content) as [ids Hids]. rw Hids /=.
  destruct (get_tests_with_and_without_rust_files _ _ ids)
    as [[cov' uncov]|] eqn:Hr; [|done]. simpl.
  destruct (group_loop cov' _ ∅) as [m|] eqn:Hg; [|done]. simpl.
  intros [= <- <-]. by exists content, ids, uncov.
Qed.

Lemma reconcile_total fs walk tests_files :
  readable fs (get_rust_files walk) →
  ∃ cov uncov,
    get_tests_with_and_without_rust_files fs walk tests_files = Ok (cov, uncov).
Proof.
  intros Hr%readable_elements.
  destruct (reconcile_loop_spec fs _ tests_files (∅, ∅) Hr)
    as (cov & uncov & ? & _).
  by exists cov, uncov.
Qed.

(** When the manifest and the corpus can be read, [main] gets as far as
    the grouping loop, and what that loop does decides the outcome. *)
Lemma main_locals_group w content :
  files w !! tests_dir = Some content →
  readable (files w) (get_rust_files (walk w rust_dir)) →
  ∃ cov,
    main_locals w
    = (syscalls ← group_loop cov (manifest_records content) ∅;
       Ok (cov, syscalls)).
Proof.
  intros Hc Hr. unfold main_locals, get_tests_filenames_from_spec, open.
  rw Hc /=. fold (manifest_records content).
  destruct (manifest_first_fields content) as [ids ->]. simpl.
  destruct (reconcile_total _ _ ids Hr) as (cov & uncov & ->).
  by exists cov.
Qed.

Lemma sample_main_locals :
  main_locals sample_world = Ok (sample_locals.1, sample_locals.2).
Proof.
  unfold sample_locals.
  destruct (main_locals sample_world) as [[cov syscalls]|e] eqn:E; [done|].
  vm_compute in E. discriminate E.
Defined.

(** The dictionary the grouping loop builds from an empty one: under each
    syscall, the entries of its records in the order of the loop. *)
Lemma group_loop_lookup cov rs syscalls k :
  group_loop cov rs ∅ = Ok syscalls →
  syscalls !! k =
    match omap (record_test cov k) rs with
    | [] => None
    | tests => Some tests
    end.
Proof.
  intros Hg. pose proof (group_loop_inv _ _ _ _ Hg) as Hwf.
  destruct (group_loop_ok cov rs ∅ Hwf) as (m' & Hg' & Hm').
  rw Hg in Hg'. injection Hg' as <-.
  destruct (Hm' k) as [Hd Hs]. rw lookup_empty /= in Hd. rw lookup_empty in Hs.
  destruct (syscalls !! k) as [tests|] eqn:E; simpl in Hd.
  - subst tests. destruct (omap (record_test cov k) rs) eqn:E'; [|done].
    destruct Hs as [[[? [=]]|Hs] _]; [by eexists|done].
  - by rw -Hd.
Qed.

Lemma record_test_Some cov k r t :
  record_test cov k r = Some t →
  ∃ testfile,
    r = [testfile; description t]
    ∧ Str.split Str.slash testfile = [k; name t]
    ∧ testfile = k +:+ "/" +:+ name t
    ∧ has_rust_file t = bool_decide (testfile ∈ cov).
Proof.
  unfold record_test. destruct r as [|testfile [|desc [|??]]]; try done.
  destruct (Str.split Str.slash testfile) as [|syscall [|test_name [|??]]] eqn:E;
    try done.
  case_bool_decide as Hk; [|done]. intros [= <-]. subst syscall. simpl.
  exists testfile. by destruct (split_two _ _ _ _ E) as (-> & _ & _).
Qed.

Lemma filter_ext_in {A} (P Q : A → Prop)
    `{!∀ x, Decision (P x), !∀ x, Decision (Q x)} (l : list A) :
  (∀ x, x ∈ l → P x ↔ Q x) → filter P l = filter Q l.
Proof.
  induction l as [|x l IH]; intros Hext; [done|].
  rw !filter_cons IH.
  { intros y ?. apply Hext. by right. }
  pose proof (Hext x ltac:(left)). repeat case_decide; naive_solver.
Qed.

Lemma progress_value_length tests :
  progress_value tests = length (filter (λ t, has_rust_file t = true) tests).
Proof. unfold progress_value. rw sum_list_fmap_const. lia. Qed.



(** C4. In the header of every block the progress value is the number of
    tests of the block whose id, syscall and name around the slash, is in
    the covered set, and it is at most the [max] of the header, the
    number of tests of the block. *)
Theorem progress_counts_covered w cov syscalls k tests :
  main_locals w = Ok (cov, syscalls) →
  (k, tests) ∈ report_blocks syscalls →
  let value := length (filter (λ t, k +:+ "/" +:+ name t ∈ cov) tests) in
  render_block k tests !! 1%nat
  = Some ("<summary>" +:+ k +:+ " <progress value='" +:+ pretty value
          +:+ "' " +:+ "max='" +:+ pretty (length tests)
          +:+ "'></progress></summary>")
  ∧ (value ≤ length tests)%nat.
Proof.
  intros Hm (tests0 & Hk & ->)%elem_of_report_blocks value.
  split; [|apply length_filter].
  destruct (main_locals_inv _ _ _ Hm) as (content & ids & uncov & _ & _ & _ & Hg).
  rw (group_loop_lookup _ _ _ k Hg) in Hk.
  simpl. unfold summary_line. do 5 f_equal.
  rw progress_value_length. unfold value. do 2 f_equal.
  apply filter_ext_in. intros t Ht. rw sorted_by_Permutation in Ht.
  assert (t ∈ omap (record_test cov k) (manifest_records content)) as Ht'.
  { destruct (omap _ _); [done|]. by injection Hk as ->. }
  apply list_elem_of_omap in Ht' as (r & _ & Hr).
  destruct (record_test_Some _ _ _ _ Hr) as (testfile & _ & _ & <- & ->).
  by rw bool_decide_eq_true.
Qed.

Lemma progress_counts_covered_witness :
  let tests := [ mkTest "01.t" true ("Opens a file" +:+ String Str.newline "");
                 mkTest "02.t" false ("Opens a dir" +:+ String Str.newline "") ] in
  let value :=
    length (filter (λ t, "open" +:+ "/" +:+ name t ∈ sample_locals.1) tests) in
  render_block "open" tests !! 1%nat
  = Some ("<summary>" +:+ "open" +:+ " <progress value='" +:+ pretty value
          +:+ "' " +:+ "max='" +:+ pretty (length tests)
          +:+ "'></progress></summary>")
  ∧ (value ≤ length tests)%nat.
Proof.
  apply (progress_counts_covered sample_world sample_locals.1 sample_locals.2).
  - apply sample_main_locals.
  - apply elem_of_report_blocks.
    exists [ mkTest "02.t" false ("Opens a dir" +:+ String Str.newline "");
             mkTest "01.t" true ("Opens a file" +:+ String Str.newline "") ].
    split; vm_compute; reflexivity.
Defined.

(** Every record the loop went through has its entry under its syscall. *)
Lemma group_loop_member cov rs syscalls testfile desc :
  group_loop cov rs ∅ = Ok syscalls → [testfile; desc] ∈ rs →
  ∃ syscall test_name tests,
    Str.split Str.slash testfile = [syscall; test_name]
    ∧ syscalls !! syscall = Some tests
    ∧ mkTest test_name (bool_decide (testfile ∈ cov)) desc ∈ tests.
Proof.
  intros Hg Hin. pose proof (group_loop_inv _ _ _ _ Hg) as Hwf.
  eapply Forall_forall in Hwf; [|done].
  destruct Hwf as (testfile' & desc' & syscall & test_name & Heq & Hs).
  injection Heq as <- <-.
  set (t := mkTest test_name (bool_decide (testfile ∈ cov)) desc).
  assert (t ∈ omap (record_test cov syscall) rs) as Ht.
  { apply list_elem_of_omap. exists [testfile; desc]. split; [done|].
    unfold record_test. rw Hs. by rw bool_decide_true. }
  pose proof (group_loop_lookup _ _ _ syscall Hg) as Hl.
  destruct (omap (record_test cov syscall) rs) as [|t' ts] eqn:E;
    [by apply elem_of_nil in Ht|].
  by exists syscall, test_name, (t' :: ts).
Qed.

Lemma description_cell_rendered (syscalls : gmap string (list Test)) k tests0 t :
  syscalls !! k = Some tests0 → t ∈ tests0 →
  description_cell t ∈ render syscalls.
Proof.
  intros Hk Ht. unfold render. apply list_elem_of_bind.
  exists (k, sorted_by name tests0). split.
  - unfold render_block. apply elem_of_app. right. apply elem_of_app. left.
    apply list_elem_of_bind. exists t. split.
    + unfold render_row. set_solver.
    + by rw sorted_by_Permutation.
  - apply elem_of_report_blocks. by exists tests0.
Qed.

Lemma not_well_formed_arity r : length r ≠ 2 → ¬ well_formed r.
Proof. by intros Hl (? & ? & ? & ? & -> & _). Qed.

Lemma not_well_formed_slashes r testfile :
  tuple_first r = Ok testfile → Str.count Str.slash testfile ≠ 1 →
  ¬ well_formed r.
Proof.
  intros Hf Hc (? & ? & syscall & test_name & -> & Hs). injection Hf as ->.
  apply Hc, split_two_iff. eauto.
Qed.

(** With a readable manifest and corpus, a record that is not well formed
    ends [main] with [ValueError] and nothing printed. *)
Lemma main_raises_ValueError w content r :
  files w !! tests_dir = Some content →
  readable (files w) (get_rust_files (walk w rust_dir)) →
  r ∈ manifest_records content → ¬ well_formed r →
  main w = ([], Some ValueError).
Proof.
  intros Hc Hr Hin Hwf. unfold main.
  destruct (main_locals_group w content Hc Hr) as [cov ->].
  by rw (group_loop_raise cov _ ∅ r Hin Hwf).
Qed.

Lemma world_with_manifest_readable content :
  readable (files (world_with_manifest content))
           (get_rust_files (walk (world_with_manifest content) rust_dir)).
Proof.
  intros p Hp. simpl in *. rw lookup_insert_ne.
  - intros <-. vm_compute in Hp.
    apply elem_of_cons in Hp as [[=]|Hp].
    by apply list_elem_of_singleton in Hp.
  - by apply sample_readable.
Defined.

(** C6. A record whose id does not have exactly one slash makes the
    grouping loop raise, whatever the covered set and the dictionary so
    far, and [main] ends there with nothing printed; a record whose id
    has exactly one slash is entered under the part before the slash. *)
Theorem grouping_requires_one_slash w content line id :
  files w !! tests_dir = Some content →
  readable (files w) (get_rust_files (walk w rust_dir)) →
  line ∈ Str.readlines content →
  tuple_first (Str.split Str.tab line) = Ok id →
  (Str.count Str.slash id ≠ 1 →
     (∀ cov m, group_loop cov (manifest_records content) m = Raise ValueError)
     ∧ main w = ([], Some ValueError))
  ∧ (Str.count Str.slash id = 1 →
     ∀ desc cov syscalls,
       Str.split Str.tab line = [id; desc] →
       main_locals w = Ok (cov, syscalls) →
       ∃ syscall test_name tests,
         id = syscall +:+ "/" +:+ test_name
         ∧ Str.count Str.slash syscall = 0
         ∧ syscalls !! syscall = Some tests
         ∧ mkTest test_name (bool_decide (id ∈ cov)) desc ∈ tests).
Proof.
  intros Hc Hr Hline Hid.
  assert (Str.split Str.tab line ∈ manifest_records content) as Hin.
  { apply elem_of_manifest_records. eauto. }
  split.
  - intros Hn. pose proof (not_well_formed_slashes _ _ Hid Hn) as Hwf. split.
    + intros cov m. by apply (group_loop_raise cov _ m _ Hin).
    + by apply (main_raises_ValueError w content _ Hc Hr Hin).
  - intros _ desc cov syscalls Hs Hm.
    destruct (main_locals_inv _ _ _ Hm) as (content' & _ & _ & Hc' & _ & _ & Hg).
    rw Hc in Hc'. injection Hc' as <-. rw Hs in Hin.
    destruct (group_loop_member _ _ _ _ _ Hg Hin)
      as (syscall & test_name & tests & Hsp & Hk & Ht).
    exists syscall, test_name, tests.
    by destruct (split_two _ _ _ _ Hsp) as (-> & ? & _).
Qed.

Lemma grouping_requires_one_slash_witness :
  main (world_with_manifest (tab_line "open01.t" "Opens a file"))
  = ([], Some ValueError)
  ∧ ∃ syscall test_name tests,
      "open/01.t" = syscall +:+ "/" +:+ test_name
      ∧ Str.count Str.slash syscall = 0
      ∧ sample_locals.2 !! syscall = Some tests
      ∧ mkTest test_name (bool_decide ("open/01.t" ∈ sample_locals.1))
          ("Opens a file" +:+ String Str.newline "") ∈ tests.
Proof.
  split.
  - apply (grouping_requires_one_slash
             (world_with_manifest (tab_line "open01.t" "Opens a file"))
             (tab_line "open01.t" "Opens a file")
             (tab_line "open01.t" "Opens a file") "open01.t").
    + apply lookup_insert_eq.
    + apply world_with_manifest_readable.
    + apply list_elem_of_In. vm_compute. left. reflexivity.
    + vm_compute. reflexivity.
    + vm_compute. discriminate.
  - apply (grouping_requires_one_slash sample_world
             (tab_line "open/01.t" "Opens a file"
              +:+ tab_line "open/02.t" "Opens a dir")
             (tab_line "open/01.t" "Opens a file") "open/01.t").
    + vm_compute. reflexivity.
    + apply sample_readable.
    + apply list_elem_of_In. vm_compute. left. reflexivity.
    + vm_compute. reflexivity.
    + vm_compute. reflexivity.
    + vm_compute. reflexivity.
    + apply sample_main_locals.
Defined.

(** C10. A manifest line that does not have exactly one tab gives a tuple
    of another arity than two; the unpacking of that tuple raises
    [ValueError], and with it [main] ends before anything is printed. *)
Theorem grouping_requires_one_tab w content line :
  files w !! tests_dir = Some content →
  readable (files w) (get_rust_files (walk w rust_dir)) →
  line ∈ Str.readlines content →
  Str.count Str.tab line ≠ 1 →
  length (Str.split Str.tab line) ≠ 2
  ∧ get_tests_filenames_from_spec (files w) tests_dir
    = Ok (Str.split Str.tab <$> Str.readlines content)
  ∧ (∀ cov m, group_record cov m (Str.split Str.tab line) = Raise ValueError)
  ∧ (∀ cov m, group_loop cov (manifest_records content) m = Raise ValueError)
  ∧ main w = ([], Some ValueError).
Proof.
  intros Hc Hr Hline Hn.
  assert (length (Str.split Str.tab line) ≠ 2) as Hl.
  { rw split_length. lia. }
  assert (Str.split Str.tab line ∈ manifest_records content) as Hin.
  { apply elem_of_manifest_records. eauto. }
  pose proof (not_well_formed_arity _ Hl) as Hwf.
  split; [done|]. split.
  { unfold get_tests_filenames_from_spec, open. by rw Hc. }
  split; [|split].
  - intros cov m. by apply group_record_raise.
  - intros cov m. by apply (group_loop_raise cov _ m _ Hin).
  - by apply (main_raises_ValueError w content _ Hc Hr Hin).
Qed.

Lemma grouping_requires_one_tab_witness :
  let content := "open/01.t" +:+ String Str.newline "" in
  let w := world_with_manifest content in
  length (Str.split Str.tab content) ≠ 2
  ∧ get_tests_filenames_from_spec (files w) tests_dir
    = Ok (Str.split Str.tab <$> Str.readlines content)
  ∧ (∀ cov m, group_record cov m (Str.split Str.tab content) = Raise ValueError)
  ∧ (∀ cov m, group_loop cov (manifest_records content) m = Raise ValueError)
  ∧ main w = ([], Some ValueError).
Proof.
  apply (grouping_requires_one_tab
           (world_with_manifest ("open/01.t" +:+ String Str.newline ""))
           ("open/01.t" +:+ String Str.newline "")
           ("open/01.t" +:+ String Str.newline "")).
  - apply lookup_insert_eq.
  - apply world_with_manifest_readable.
  - apply list_elem_of_In. vm_compute. left. reflexivity.
  - vm_compute. discriminate.
Defined.

(** C8. For a manifest line that ends with a newline, the tuple the
    reader yields is the line split on tabs with nothing stripped: when it
    is a pair, its description ends with that newline, and when [main]
    prints the report the Description cell of the record carries it. *)
Theorem description_keeps_newline w content line :
  files w !! tests_dir = Some content →
  line ∈ Str.readlines content →
  ends_with_newline line →
  (∃ records,
      get_tests_filenames_from_spec (files w) tests_dir = Ok records
      ∧ Str.split Str.tab line ∈ records
      ∧ ∀ id desc, Str.split Str.tab line = [id; desc] → ends_with_newline desc)
  ∧ (∀ cov syscalls,
       main_locals w = Ok (cov, syscalls) →
       ∃ id desc,
         Str.split Str.tab line = [id; desc]
         ∧ ends_with_newline desc
         ∧ "<td>" +:+ desc +:+ "</td>" ∈ (main w).1).
Proof.
  intros Hc Hline Hnl.
  assert (∀ id desc,
            Str.split Str.tab line = [id; desc] → ends_with_newline desc) as Hd.
  { intros id desc Hs.
    destruct (split_last_newline Str.tab line) as (fields & last & Hs' & Hl);
      [done|done|].
    rw Hs in Hs'. destruct fields as [|? [|? [|??]]]; by simplify_eq/=. }
  split.
  - exists (Str.split Str.tab <$> Str.readlines content).
    unfold get_tests_filenames_from_spec, open. rw Hc. split; [done|].
    split; [|done]. by apply list_elem_of_fmap_2.
  - intros cov syscalls Hm.
    destruct (main_locals_inv _ _ _ Hm) as (content' & _ & _ & Hc' & _ & _ & Hg).
    rw Hc in Hc'. injection Hc' as <-.
    assert (Str.split Str.tab line ∈ manifest_records content) as Hin.
    { apply elem_of_manifest_records. eauto. }
    pose proof (group_loop_inv _ _ _ _ Hg) as Hwf.
    eapply Forall_forall in Hwf; [|done].
    destruct Hwf as (id & desc & _ & _ & Hs & _).
    exists id, desc. split; [done|]. split; [by eapply Hd|].
    rw Hs in Hin.
    destruct (group_loop_member _ _ _ _ _ Hg Hin)
      as (syscall & test_name & tests & _ & Hk & Ht).
    unfold main. rw Hm /=.
    by apply (description_cell_rendered _ _ _ _ Hk Ht).
Qed.

Lemma description_keeps_newline_witness :
  let line := tab_line "open/01.t" "Opens a file" in
  (∃ records,
      get_tests_filenames_from_spec (files sample_world) tests_dir = Ok records
      ∧ Str.split Str.tab line ∈ records
      ∧ ∀ id desc, Str.split Str.tab line = [id; desc] → ends_with_newline desc)
  ∧ (∀ cov syscalls,
       main_locals sample_world = Ok (cov, syscalls) →
       ∃ id desc,
         Str.split Str.tab line = [id; desc]
         ∧ ends_with_newline desc
         ∧ "<td>" +:+ desc +:+ "</td>" ∈ (main sample_world).1).
Proof.
  apply (description_keeps_newline sample_world
           (tab_line "open/01.t" "Opens a file"
            +:+ tab_line "open/02.t" "Opens a dir")).
  - vm_compute. reflexivity.
  - apply list_elem_of_In. vm_compute. left. reflexivity.
  - exists ("open/01.t" +:+ String Str.tab "Opens a file"). vm_compute. reflexivity.
Defined.

(** ** The descriptor finder of the report script *)

Lemma find_desc_in_lines_none (lines : list string) :
  (∀ line, line ∈ lines → ¬ ∃ rest, line = "desc=" +:+ rest) →
  find_desc_in_lines lines = "".
Proof.
  induction lines as [|line rest IH]; intros Hno; [done|].
  cbn [find_desc_in_lines].
  destruct (Str.startswith line "desc=") eqn:E.
  - apply startswith_spec in E. destruct (Hno line); [by left|done].
  - apply IH. intros l ?. apply Hno. by right.
Qed.

(** C9. On a readable file none of whose lines starts with [desc=],
    [find_file_description] returns the empty string, which is not the
    text the issue script falls back on. *)
Theorem find_file_description_empty fs file_path content :
  fs !! file_path = Some content →
  (∀ line, line ∈ Str.readlines content → ¬ ∃ rest, line = "desc=" +:+ rest) →
  find_file_description fs file_path = Ok ""
  ∧ find_file_description fs file_path ≠ Ok "Unknown description".
Proof.
  intros Hc Hno. unfold find_file_description, open. rw Hc /=.
  by rw find_desc_in_lines_none.
Qed.

Lemma find_file_description_empty_witness :
  find_file_description {["tests/open/00.t" := midline_file]} "tests/open/00.t"
  = Ok ""
  ∧ find_file_description {["tests/open/00.t" := midline_file]} "tests/open/00.t"
    ≠ Ok "Unknown description".
Proof.
  apply (find_file_description_empty _ _ midline_file).
  - apply lookup_singleton_eq.
  - intros line Hin [rest ->]. apply list_elem_of_In in Hin.
    vm_compute in Hin. destruct Hin as [[=]|[]].
Defined.

(** The issue script finds the descriptor of that file. *)
Example midline_header_description :
  Issues.header_description (Str.take 600 midline_file) = "abc".
Proof. vm_compute. reflexivity. Qed.

(** ** The descriptor search of the issue script *)

Module IssuesFacts.
Import Issues IssuesSpec.

Local Arguments String.append !_ _ / : simpl nomatch.

Lemma match_here_char c p s :
  match_here (RChar c :: p) s
  = match s with
    | String a s' => if bool_decide (a = c) then match_here p s' else None
    | "" => None
    end.
Proof. done. Qed.

Lemma match_here_group p s :
  match_here (RGroupLazyAny :: p) s
  = match match_here p s with
    | Some _ => Some ""
    | None =>
        match s with
        | String a s' =>
            if bool_decide (a = Str.newline) then None
            else String a <$> match_here (RGroupLazyAny :: p) s'
        | "" => None
        end
    end.
Proof. by destruct s. Qed.

(** The lazy group followed by the closing quote takes the characters
    up to the first quote, and fails on a newline before it. *)
Lemma match_group_quote s g :
  match_here [RGroupLazyAny; RChar Str.dquote] s = Some g ↔
  ∃ post, s = g +:+ String Str.dquote post
          ∧ Str.count Str.dquote g = 0 ∧ Str.count Str.newline g = 0.
Proof.
  revert g. induction s as [|a s IH]; intros g; rw match_here_group.
  - simpl. split; [done|]. intros (post & Hs & _). by destruct g.
  - rw match_here_char. destruct (decide (a = Str.dquote)) as [->|Hq].
    + rw bool_decide_true; [done|]. simpl. split.
      * intros [= <-]. by exists s.
      * intros (post & Hs & Hq & _). destruct g as [|b g]; [done|].
        simpl in *. injection Hs as <- _. by rw bool_decide_true in Hq.
    + rw (bool_decide_false (a = Str.dquote)); [done|].
      destruct (decide (a = Str.newline)) as [->|Hn].
      * rw bool_decide_true; [done|]. split; [done|].
        intros (post & Hs & _ & Hn). destruct g as [|b g]; simpl in *.
        -- by injection Hs.
        -- injection Hs as <- _. by rw bool_decide_true in Hn.
      * rw (bool_decide_false (a = Str.newline)); [done|]. split.
        -- intros Hm.
           destruct (match_here [RGroupLazyAny; RChar Str.dquote] s)
             as [g'|] eqn:E in Hm; [|done].
           injection Hm as <-. apply IH in E as (post & -> & ? & ?).
           exists post. simpl. by rw !bool_decide_false.
        -- intros (post & Hs & Hcq & Hcn).
           destruct g as [|b g]; simpl in Hs, Hcq, Hcn.
           { by injection Hs. }
           injection Hs as <- ->. rw bool_decide_false in Hcq; [done|].
           rw bool_decide_false in Hcn; [done|].
           assert (match_here [RGroupLazyAny; RChar Str.dquote]
                     (g +:+ String Str.dquote post) = Some g) as ->; [|done].
           apply IH. by exists post.
Qed.

(** [desc_pattern] matches at the start of [s] exactly when [s] opens
    with [desc_open], a text free of quotes and newlines, and a quote. *)
Lemma match_desc_pattern s g :
  match_here desc_pattern s = Some g ↔
  ∃ post, s = desc_open +:+ g +:+ String Str.dquote post
          ∧ Str.count Str.dquote g = 0 ∧ Str.count Str.newline g = 0.
Proof.
  unfold desc_pattern. split.
  - repeat (rw match_here_char; destruct s as [|? s]; [done|];
            case_bool_decide; [subst|done]).
    intros (post & -> & ? & ?)%match_group_quote. by exists post.
  - intros (post & -> & ? & ?).
    assert (match_here [RGroupLazyAny; RChar Str.dquote]
              (g +:+ String Str.dquote post) = Some g) as Hg.
    { apply match_group_quote. by exists post. }
    exact Hg.
Qed.

(** A text before a quote can be cut at its first quote. *)
Lemma cut_at_first_quote g post :
  ∃ g0 post0,
    g +:+ String Str.dquote post = g0 +:+ String Str.dquote post0
    ∧ Str.count Str.dquote g0 = 0
    ∧ (Str.count Str.newline g = 0 → Str.count Str.newline g0 = 0).
Proof.
  induction g as [|a g IH]; [by exists "", post|].
  destruct (decide (a = Str.dquote)) as [->|Hq].
  - by exists "", (g +:+ String Str.dquote post).
  - destruct IH as (g0 & post0 & Hs & ? & Hn). exists (String a g0), post0.
    simpl. rw Hs. split; [done|]. rw bool_decide_false; [done|].
    split; [done|]. case_bool_decide; [done|]. apply Hn.
Qed.

Lemma match_desc_pattern_None s :
  match_here desc_pattern s = None ↔ ¬ desc_at_start s.
Proof.
  split.
  - intros Hm (g & post & -> & Hn).
    destruct (cut_at_first_quote g post) as (g0 & post0 & Hs & ? & Hn0).
    assert (match_here desc_pattern
              (desc_open +:+ g +:+ String Str.dquote post) = Some g0) as Hm'.
    { apply match_desc_pattern. exists post0. rw Hs. auto. }
    by rw Hm in Hm'.
  - intros Hno. destruct (match_here desc_pattern s) as [g|] eqn:E; [|done].
    apply match_desc_pattern in E as (post & -> & _ & ?).
    destruct Hno. by exists g, post.
Qed.

Lemma re_search_eq p s :
  re_search p s
  = match match_here p s with
    | Some g => Some g
    | None =>
        match s with
        | String _ s' => re_search p s'
        | "" => None
        end
    end.
Proof. by destruct s. Qed.

(** The search fails exactly when the pattern occurs at no position. *)
Lemma re_search_None s :
  re_search desc_pattern s = None ↔
  ∀ pre rest, s = pre +:+ rest → ¬ desc_at_start rest.
Proof.
  induction s as [|a s IH]; rw re_search_eq.
  - split.
    + intros _ pre rest Hs. destruct pre; [|done]. simpl in Hs. subst rest.
      by intros (g & post & [=] & _).
    + intros _. by destruct (match_here desc_pattern "") eqn:E.
  - destruct (match_here desc_pattern (String a s)) as [g|] eqn:E.
    + split; [done|]. intros Hno.
      assert (match_here desc_pattern (String a s) = None) as E'.
      { apply match_desc_pattern_None. by apply (Hno ""). }
      by rw E in E'.
    + rw IH. apply match_desc_pattern_None in E. split.
      * intros Hno [|b pre] rest Hs; simpl in Hs; [by subst rest|].
        injection Hs as -> ->. by apply (Hno pre).
      * intros Hno pre rest ->. by apply (Hno (String a pre)).
Qed.

(** The search returns the group of the leftmost occurrence. *)
Lemma re_search_Some pre g post :
  Str.count Str.dquote g = 0 → Str.count Str.newline g = 0 →
  (∀ pre' rest',
     pre +:+ desc_open +:+ g +:+ String Str.dquote post = pre' +:+ rest' →
     desc_at_start rest' → (String.length pre ≤ String.length pre')%nat) →
  re_search desc_pattern (pre +:+ desc_open +:+ g +:+ String Str.dquote post)
  = Some g.
Proof.
  intros Hq Hn. induction pre as [|a pre IH]; intros Hleft; rw re_search_eq.
  - assert (match_here desc_pattern
              (desc_open +:+ g +:+ String Str.dquote post) = Some g) as Hm.
    { apply match_desc_pattern. by exists post. }
    simpl String.append at 1. by rw Hm.
  - set (s := pre +:+ desc_open +:+ g +:+ String Str.dquote post) in *.
    change (String a pre +:+ desc_open +:+ g +:+ String Str.dquote post)
      with (String a s) in *.
    assert (match_here desc_pattern (String a s) = None) as ->.
    { apply match_desc_pattern_None. intros Hat.
      specialize (Hleft "" (String a s) eq_refl Hat). simpl in Hleft. lia. }
    apply IH. intros pre' rest' Hs Hat.
    specialize (Hleft (String a pre') rest'). simpl in Hleft.
    rw Hs in Hleft. specialize (Hleft eq_refl Hat). lia.
Qed.

(** C5. The task line of a readable file is built from the first 600
    characters of the file alone.  When the pattern (the opening text,
    a text without newline, a quote) occurs nowhere in them, the
    description is the text Unknown description; when it occurs, the
    description is the text between the quotes of the leftmost
    occurrence. *)
Theorem issue_description_from_header fs syscall file content :
  fs !! ("tests/" +:+ syscall +:+ "/" +:+ file) = Some content →
  let header := Str.take 600 content in
  build_task_list fs syscall [file]
  = Ok [task_line file (header_description header)]
  ∧ ((∀ pre rest, header = pre +:+ rest → ¬ desc_at_start rest) →
     header_description header = "Unknown description")
  ∧ (∀ pre g post,
       header = pre +:+ desc_open +:+ g +:+ String Str.dquote post →
       Str.count Str.dquote g = 0 → Str.count Str.newline g = 0 →
       (∀ pre' rest',
          header = pre' +:+ rest' → desc_at_start rest' →
          (String.length pre ≤ String.length pre')%nat) →
       header_description header = g).
Proof.
  intros Hc header. split; [|split].
  - unfold build_task_list, read_header, open. by rw Hc.
  - intros Hno%re_search_None. unfold header_description. by rw Hno.
  - intros pre g post Hh Hq Hn Hleft. unfold header_description.
    rw Hh in Hleft. rw Hh. by rw re_search_Some.
Qed.

Lemma issue_description_from_header_witness :
  header_description (Str.take 600 two_descs) = "abc"
  ∧ header_description (Str.take 600 "#!/bin/sh") = "Unknown description".
Proof.
  split.
  - destruct (issue_description_from_header sample_tests "open" "01.t"
                two_descs ltac:(vm_compute; reflexivity)) as (_ & _ & Hsome).
    apply (Hsome "# " "abc"
             (" " +:+ desc_open +:+ "zz" +:+ String Str.dquote ""));
      [vm_compute; reflexivity..|].
    intros [|? [|? pre']] rest' Hs Hat; [exfalso..|simpl; lia].
    + destruct Hat as (g & post & -> & _). vm_compute in Hs. discriminate Hs.
    + destruct Hat as (g & post & -> & _). vm_compute in Hs. discriminate Hs.
  - destruct (issue_description_from_header sample_tests "open" "02.t"
                "#!/bin/sh" ltac:(vm_compute; reflexivity)) as (_ & Hnone & _).
    apply Hnone. apply re_search_None. vm_compute. reflexivity.
Defined.

(** A descriptor that starts after the first 600 characters is not
    seen, and a newline between the quotes hides a descriptor. *)
Example description_past_header :
  header_description
    (Str.take 600 (string_of_list_ascii (replicate 600 " "%char)
                   +:+ desc_open +:+ "abc" +:+ String Str.dquote ""))
  = "Unknown description".
Proof. vm_compute. reflexivity. Qed.

Example description_across_lines :
  header_description
    (desc_open +:+ "a" +:+ String Str.newline "b" +:+ String Str.dquote "")
  = "Unknown description".
Proof. vm_compute. reflexivity. Qed.

End IssuesFacts.

(** ** The dispatch loop of the issue script *)

Section dispatch.
Import Issues.
Context (fs : filesystem) (gh : tracker).
Local Abbreviation command_of := (command_of fs).

Lemma runs_dispatched (calls : list (list string * string)) :
  runs (calls ≫= dispatched) = calls.*1.
Proof.
  induction calls as [|[cmd out] calls IH]; [done|].
  rw fmap_cons -IH. done.
Qed.

Lemma dispatch_loop_ok n items cmds outs :
  Forall2 command_of items cmds →
  length outs = length cmds →
  (∀ i cmd out,
     cmds !! i = Some cmd → outs !! i = Some out → gh (n + i) cmd = Some out) →
  dispatch_loop fs gh n items = (zip cmds outs ≫= dispatched, Ok ()).
Proof.
  intros Hcmds. revert n outs.
  induction Hcmds as [|[syscall files] cmd items cmds (tl & Htl & ->) _ IH];
    intros n outs Hlen Hgh; [done|].
  destruct outs as [|out outs]; [done|]. simpl in *. rw Htl.
  rw -(Nat.add_0_r n) (Hgh 0 _ out eq_refl eq_refl) Nat.add_0_r.
  rw (IH (S n) outs); [lia| |done].
  intros i cmd' out' ??. rw Nat.add_succ_comm. by apply Hgh.
Qed.

Lemma dispatch_loop_abort n items cmds k cmd_k outs :
  Forall2 command_of items cmds →
  cmds !! k = Some cmd_k →
  length outs = k →
  (∀ i cmd out,
     cmds !! i = Some cmd → outs !! i = Some out → gh (n + i) cmd = Some out) →
  gh (n + k) cmd_k = None →
  dispatch_loop fs gh n items
  = (((zip (take k cmds) outs ≫= dispatched) ++ [Run cmd_k])%list,
     Raise CalledProcessError).
Proof.
  intros Hcmds. revert n k outs.
  induction Hcmds as [|[syscall files] cmd items cmds (tl & Htl & ->) _ IH];
    intros n k outs Hk Hlen Hgh Hfail; [done|].
  simpl in *. rw Htl. destruct k as [|k].
  - injection Hk as <-. rw Nat.add_0_r in Hfail. rw Hfail.
    by destruct outs.
  - destruct outs as [|out outs]; [done|]. simpl in *.
    rw -(Nat.add_0_r n) (Hgh 0 _ out eq_refl eq_refl) Nat.add_0_r.
    rw (IH (S n) k outs); [done|lia| | |done].
    + intros i cmd' out' ??. rw Nat.add_succ_comm. by apply Hgh.
    + by rw Nat.add_succ_comm.
Qed.
End dispatch.

(** Setting a key that the dictionary does not have adds the item at the
    end. *)
Lemma dict_set_fresh {V} k (v : V) (d : list (string * V)) :
  k ∉ d.*1 → Issues.dict_set k v d = (d ++ [(k, v)])%list.
Proof.
  induction d as [|[k' v'] d IH]; intros Hk; simpl; [done|].
  apply not_elem_of_cons in Hk as [Hne Hk].
  rw bool_decide_false; [done|]. by rw IH.
Qed.

(** X14. When the directories of the listing have distinct names, the
    dictionary [files] has one item per directory, in the order of the
    listing, with the names of the entries of the directory; entries of
    the listing that are not directories are left out. *)
Lemma files_of_tree_distinct (contents : list Issues.entry) :
  NoDup (Issues.entry_name <$> filter is_directory contents) →
  Issues.files_of_tree contents = directory_item <$> filter is_directory contents.
Proof.
  unfold Issues.files_of_tree. intros Hnd.
  enough (∀ acc,
    (∀ k, k ∈ acc.*1 →
          k ∉ Issues.entry_name <$> filter is_directory contents) →
    foldl (λ d folder,
             if bool_decide (Issues.entry_type folder = "directory")
             then Issues.dict_set (Issues.entry_name folder)
                    (Issues.entry_name <$> Issues.entry_contents folder) d
             else d) acc contents
    = (acc ++ (directory_item <$> filter is_directory contents))%list) as Hgen.
  { apply (Hgen []). by intros k ?%elem_of_nil. }
  induction contents as [|e contents IH]; intros acc Hacc; simpl.
  { by rw app_nil_r. }
  rw filter_cons in Hnd. rw filter_cons in Hacc. rw filter_cons.
  unfold is_directory in *. case_bool_decide as He.
  - rw decide_True in Hnd; [done|]. rw decide_True in Hacc; [done|].
    rw decide_True; [done|].
    rw fmap_cons in Hnd. apply NoDup_cons in Hnd as [Hfresh Hnd].
    rw dict_set_fresh.
    { intros Hin. apply (Hacc _ Hin). rw fmap_cons. by left. }
    rw (IH Hnd).
    { intros k. rw fmap_app elem_of_app. intros [Hk|Hk].
      - intros Hin. apply (Hacc _ Hk). rw fmap_cons. by right.
      - apply list_elem_of_singleton in Hk as ->. done. }
    by rw -app_assoc.
  - rw decide_False in Hnd; [done|]. rw decide_False in Hacc; [done|].
    rw decide_False; [done|]. by apply IH.
Qed.

(** C7. Take the directories in the order of [files.items()], each with
    the command built from its readable files.  If every call of the
    tracker client exits with 0, the loop starts exactly these commands,
    one per directory and in this order, each followed by the print of
    its output and a sleep of 10 seconds, and ends normally.  If the call
    for directory [k] is the first that exits with another status, the
    loop has started the commands of the directories up to [k], ends with
    [CalledProcessError] right after the failed call, and starts nothing
    for the directories after [k]; the trace of the calls made before
    stays as it is. *)
Theorem dispatch_one_call_per_directory fs gh items cmds :
  Forall2 (command_of fs) items cmds →
  (∀ outs,
     length outs = length cmds →
     (∀ i cmd out,
        cmds !! i = Some cmd → outs !! i = Some out → gh i cmd = Some out) →
     ∃ trace,
       Issues.dispatch_loop fs gh 0 items = (trace, Ok ())
       ∧ trace = zip cmds outs ≫= dispatched
       ∧ Issues.runs trace = cmds)
  ∧ (∀ k cmd_k outs,
       cmds !! k = Some cmd_k →
       length outs = k →
       (∀ i cmd out,
          cmds !! i = Some cmd → outs !! i = Some out → gh i cmd = Some out) →
       gh k cmd_k = None →
       ∃ trace,
         Issues.dispatch_loop fs gh 0 items = (trace, Raise CalledProcessError)
         ∧ trace = ((zip (take k cmds) outs ≫= dispatched)
                    ++ [Issues.Run cmd_k])%list
         ∧ Issues.runs trace = take (S k) cmds).
Proof.
  intros Hcmds. split.
  - intros outs Hlen Hgh. eexists. split; [|split; [done|]].
    + by apply dispatch_loop_ok.
    + rw runs_dispatched. apply fst_zip. lia.
  - intros k cmd_k outs Hk Hlen Hgh Hfail. eexists. split; [|split; [done|]].
    + by apply dispatch_loop_abort.
    + unfold Issues.runs. rw omap_app. fold (Issues.runs (zip (take k cmds) outs ≫= dispatched)).
      rw runs_dispatched fst_zip.
      { rw length_take. lia. }
      by rw (take_S_r _ _ _ Hk).
Qed.

Lemma sample_commands :
  Forall2 (command_of IssuesSpec.sample_tests)
          (Issues.files_of_tree sample_tree) sample_cmds.
Proof.
  repeat constructor.
  - exists ["- [ ] 01.t | abc"; "- [ ] 02.t | Unknown description"].
    split; vm_compute; reflexivity.
  - exists []. split; vm_compute; reflexivity.
Defined.

Lemma dispatch_one_call_per_directory_witness :
  (∃ trace,
     Issues.create_issues IssuesSpec.sample_tests gh_ok sample_tree
     = (trace, Ok ())
     ∧ trace = zip sample_cmds ["created"; "created"] ≫= dispatched
     ∧ Issues.runs trace = sample_cmds)
  ∧ (∃ trace,
       Issues.create_issues IssuesSpec.sample_tests gh_once sample_tree
       = (trace, Raise CalledProcessError)
       ∧ trace = ((zip (take 1 sample_cmds) ["created"] ≫= dispatched)
                  ++ [Issues.Run (Issues.issue_cmd "empty" [])])%list
       ∧ Issues.runs trace = take 2 sample_cmds).
Proof.
  split.
  - apply (dispatch_one_call_per_directory _ gh_ok _ _ sample_commands);
      [done|].
    intros i cmd out _ Hout. apply list_elem_of_lookup_2 in Hout.
    unfold gh_ok. f_equal. set_solver.
  - apply (dispatch_one_call_per_directory _ gh_once _ _ sample_commands);
      [done..| |done].
    by intros [|[|i]] cmd out _ [= <-].
Defined.

(** * Further properties of the scripts *)

(** ** Reversal, suffixes and joins *)

Lemma rev_app_append (s1 s2 : string) :
  String.rev_app s1 s2 = String.rev s1 +:+ s2.
Proof.
  unfold String.rev. revert s2.
  induction s1 as [|a s1 IH]; intros s2; simpl; [done|].
  rw (IH (String a s2)) (IH (String a "")) app_assoc_string. done.
Qed.

Lemma rev_cons_string a (s : string) :
  String.rev (String a s) = String.rev s +:+ String a "".
Proof. unfold String.rev at 1. simpl. by rw rev_app_append. Qed.

Lemma rev_append (s1 s2 : string) :
  String.rev (s1 +:+ s2) = String.rev s2 +:+ String.rev s1.
Proof.
  induction s1 as [|a s1 IH].
  - by rw app_nil_l_string app_nil_r_string.
  - by rw app_cons_string !rev_cons_string IH app_assoc_string.
Qed.

Lemma rev_involutive_string (s : string) : String.rev (String.rev s) = s.
Proof.
  induction s as [|a s IH]; [done|].
  by rw rev_cons_string rev_append IH.
Qed.

Lemma endswith_spec (s p : string) :
  Str.endswith s p = true ↔ ∃ pre, s = pre +:+ p.
Proof.
  unfold Str.endswith. rw startswith_spec. split.
  - intros [rest Hs]. exists (String.rev rest).
    by rw -(rev_involutive_string s) Hs rev_append rev_involutive_string.
  - intros [pre ->]. exists (String.rev pre). by rw rev_append.
Qed.

Lemma count_append c (s1 s2 : string) :
  Str.count c (s1 +:+ s2) = Str.count c s1 + Str.count c s2.
Proof.
  induction s1 as [|a s1 IH]; [done|].
  rw app_cons_string. simpl. rw IH. lia.
Qed.

Lemma length_append (s1 s2 : string) :
  String.length (s1 +:+ s2) = String.length s1 + String.length s2.
Proof.
  induction s1 as [|a s1 IH]; [done|]. rw app_cons_string. simpl. by rw IH.
Qed.

Lemma split_concat c s : String.concat (String c "") (Str.split c s) = s.
Proof.
  induction s as [|a s IH]; [done|]. simpl.
  pose proof (split_nonempty c s) as Hne.
  destruct (Str.split c s) as [|l ls]; [done|].
  case_bool_decide as Ha.
  - subst a. simpl in *. by rw IH.
  - simpl in *. destruct ls as [|l' ls].
    + by subst l.
    + rw -IH. done.
Qed.

Lemma split_fields c s : Forall (λ field, Str.count c field = 0) (Str.split c s).
Proof.
  induction s as [|a s IH]; simpl; [by repeat constructor|].
  pose proof (split_nonempty c s) as Hne.
  destruct (Str.split c s) as [|l ls]; [done|].
  apply Forall_cons in IH as [Hl Hls].
  case_bool_decide as Ha.
  - by repeat constructor.
  - constructor; [|done]. simpl. by rw bool_decide_false.
Qed.

(** X1. Joining the fields of a split with the separator gives the string
    back; no field contains the separator, and there is one field more
    than there are separators. *)
Theorem split_join c s :
  String.concat (String c "") (Str.split c s) = s
  ∧ Forall (λ field, Str.count c field = 0) (Str.split c s)
  ∧ length (Str.split c s) = S (Str.count c s).
Proof.
  split; [apply split_concat|]. split; [apply split_fields|apply split_length].
Qed.

(** ** Lines of a file *)

Lemma readlines_concat s : String.concat "" (Str.readlines s) = s.
Proof.
  induction s as [|a s IH]; [done|]. simpl.
  case_bool_decide.
  - simpl. destruct (Str.readlines s) as [|l ls] eqn:E.
    + simpl in IH. by subst s.
    + by rw -IH.
  - destruct (Str.readlines s) as [|l ls] eqn:E.
    + simpl in IH. by subst s.
    + rw -IH. simpl. by destruct ls.
Qed.

Lemma concat_elem_substring (l : string) (ls : list string) :
  l ∈ ls → is_substring l (String.concat "" ls).
Proof.
  induction ls as [|l' ls IH]; intros Hin; [by apply elem_of_nil in Hin|].
  apply elem_of_cons in Hin as [->|Hin].
  - destruct ls as [|l'' ls]; simpl.
    + exists "", "". by rw app_nil_r_string.
    + by exists "", (String.concat "" (l'' :: ls)).
  - destruct (IH Hin) as (pre & post & Hc).
    destruct ls as [|l'' ls]; [by apply elem_of_nil in Hin|].
    change (String.concat "" (l' :: l'' :: ls))
      with (l' +:+ "" +:+ String.concat "" (l'' :: ls)).
    rw Hc. exists (l' +:+ pre), post.
    by rw app_nil_l_string app_assoc_string.
Qed.

Lemma is_substring_trans (a b c : string) :
  is_substring a b → is_substring b c → is_substring a c.
Proof.
  intros (p1 & q1 & ->) (p2 & q2 & ->). exists (p2 +:+ p1), (q1 +:+ q2).
  by rw !app_assoc_string.
Qed.

(** A text without newline that opens the content opens its first line. *)
Lemma readlines_startswith test s :
  test ≠ "" → Str.count Str.newline test = 0 →
  Str.startswith s test = true →
  ∃ l ls, Str.readlines s = l :: ls ∧ Str.startswith l test = true.
Proof.
  revert s. induction test as [|a test IH]; intros s Hne Hnl Hs; [done|].
  destruct s as [|b s]; [done|]. simpl in Hs, Hnl.
  apply andb_true_iff in Hs as [Hab Hs]. apply bool_decide_eq_true in Hab.
  subst b. case_bool_decide as Ha; [done|]. simpl in Hnl.
  cbn [Str.readlines]. rw bool_decide_false; [done|].
  destruct test as [|a' test].
  - destruct (Str.readlines s) as [|l ls]; eexists _, _; split; try done;
      simpl; by rw bool_decide_true.
  - destruct (IH s) as (l & ls & -> & Hl); [done..|].
    exists (String a l), ls. split; [done|].
    cbn [Str.startswith]. rw bool_decide_true; [done|]. done.
Qed.

Lemma contains_cons test c l :
  Str.contains test l = true → Str.contains test (String c l) = true.
Proof. intros H. cbn [Str.contains]. rw H. apply orb_true_r. Qed.

Lemma startswith_contains test s :
  Str.startswith s test = true → Str.contains test s = true.
Proof. intros H. destruct s; simpl; by rw H. Qed.

Lemma existsb_readlines_contains test s :
  test ≠ "" → Str.count Str.newline test = 0 →
  existsb (Str.contains test) (Str.readlines s) = Str.contains test s.
Proof.
  intros Hne Hnl. apply eq_true_iff_eq. split.
  - intros (line & Hin & Hc)%existsb_exists. apply list_elem_of_In in Hin.
    apply contains_spec. apply contains_spec in Hc.
    apply (is_substring_trans _ line); [done|].
    rw -{1}(readlines_concat s). by apply concat_elem_substring.
  - induction s as [|c s IH]; intros Hc.
    + destruct test; [done|]. by simpl in Hc.
    + cbn [Str.contains] in Hc. apply orb_true_iff in Hc as [Hc|Hc].
      * destruct (readlines_startswith test (String c s)) as (l & ls & -> & Hl);
          [done..|].
        cbn [existsb]. by rw (startswith_contains _ _ Hl).
      * specialize (IH Hc). cbn [Str.readlines]. case_bool_decide.
        { cbn [existsb]. rw IH. apply orb_true_r. }
        destruct (Str.readlines s) as [|l ls]; [done|].
        cbn [existsb] in *. apply orb_true_iff in IH as [Hl|Hls].
        -- by rw (contains_cons _ c _ Hl).
        -- rw Hls. apply orb_true_r.
Qed.

(** X2. For a text that is not empty and has no newline, the scan of a
    file line by line finds it exactly when the content of the file
    contains it: splitting into lines loses no occurrence. *)
Theorem search_string_whole_file fs file_path test content :
  fs !! file_path = Some content →
  test ≠ "" → Str.count Str.newline test = 0 →
  ∃ found,
    search_string_in_file fs file_path test = Ok found
    ∧ (found = true ↔ is_substring test content).
Proof.
  intros Hc Hne Hnl. exists (Str.contains test content). split.
  - unfold search_string_in_file, open. rw Hc. simpl.
    by rw existsb_readlines_contains.
  - apply contains_spec.
Qed.

Lemma search_string_whole_file_witness :
  ∃ found,
    search_string_in_file sample_files "../../rust/src/tests/open/first.rs"
      "open/01.t" = Ok found
    ∧ (found = true ↔
       is_substring "open/01.t"
         ("// " +:+ String Str.newline "" +:+ "// port of open/01.t"
          +:+ String Str.newline "" +:+ "fn first() {}")).
Proof.
  apply search_string_whole_file; [vm_compute; reflexivity|done|].
  vm_compute. reflexivity.
Defined.

(** With a newline inside, a text that the content contains is not
    found: a match never spans two lines. *)
Example search_across_lines :
  search_string_in_file {["a.rs" := "open/" +:+ String Str.newline "01.t"]}
    "a.rs" ("open/" +:+ String Str.newline "01.t")
  = Ok false.
Proof. vm_compute. reflexivity. Qed.

(** ** The corpus scanner *)

Lemma path_join_suffix root file : ∃ pre, path_join root file = pre +:+ file.
Proof.
  unfold path_join. destruct (Str.startswith file "/"); [by exists ""|].
  destruct (bool_decide (root = "") || Str.endswith root "/").
  - by exists root.
  - exists (root +:+ "/"). by rw app_assoc_string.
Qed.

(** X3. The paths [get_rust_files] yields are the joins of a directory of
    the walk with one of its files whose name ends with [.rs], and every
    such path itself ends with [.rs]; other files and the directory names
    are left out. *)
Theorem get_rust_files_spec walk p :
  (p ∈ get_rust_files walk ↔
   ∃ root dirs files file,
     (root, dirs, files) ∈ walk ∧ file ∈ files
     ∧ (∃ stem, file = stem +:+ ".rs") ∧ p = path_join root file)
  ∧ (p ∈ get_rust_files walk → ∃ stem, p = stem +:+ ".rs").
Proof.
  assert (p ∈ get_rust_files walk ↔
   ∃ root dirs files file,
     (root, dirs, files) ∈ walk ∧ file ∈ files
     ∧ (∃ stem, file = stem +:+ ".rs") ∧ p = path_join root file) as Hiff.
  { unfold get_rust_files. rw list_elem_of_bind. split.
    - intros ([[root dirs] files] & Hp & Hw).
      apply list_elem_of_bind in Hp as (file & Hp & Hf).
      destruct (Str.endswith file ".rs") eqn:E; [|by apply elem_of_nil in Hp].
      apply list_elem_of_singleton in Hp as ->. apply endswith_spec in E.
      by exists root, dirs, files, file.
    - intros (root & dirs & files & file & Hw & Hf & Hs & ->).
      exists (root, dirs, files). split; [|done].
      apply list_elem_of_bind. exists file. split; [|done].
      apply endswith_spec in Hs. rw Hs. by apply list_elem_of_singleton. }
  split; [done|]. intros (root & dirs & files & file & _ & _ & [stem ->] & ->)%Hiff.
  destruct (path_join_suffix root (stem +:+ ".rs")) as [pre ->].
  exists (pre +:+ stem). by rw app_assoc_string.
Qed.

Lemma get_rust_files_spec_witness :
  ∃ stem, "../../rust/src/tests/open/first.rs" = stem +:+ ".rs".
Proof.
  apply (get_rust_files_spec (sample_walk rust_dir)).
  apply list_elem_of_In. vm_compute. right. left. reflexivity.
Defined.

(** ** The reconciler on corpora that cannot be read whole *)

Lemma search_string_in_file_Raise fs f t e :
  search_string_in_file fs f t = Raise e → e = OSError ∧ fs !! f = None.
Proof.
  unfold search_string_in_file, open. destruct (fs !! f); [done|].
  by intros [= <-].
Qed.

Lemma any_search_Raise fs l t e : any_search fs l t = Raise e → e = OSError.
Proof.
  induction l as [|f l IH]; simpl; [done|].
  destruct (search_string_in_file fs f t) as [[]|e'] eqn:E; simpl; [done|done|].
  intros [= <-]. by apply search_string_in_file_Raise in E as [-> _].
Qed.

Lemma any_search_Ok fs l t b :
  any_search fs l t = Ok b → (b = true ↔ covered_by fs l t).
Proof.
  revert b. induction l as [|f l IH]; intros b; simpl.
  - intros [= <-]. split; [done|]. by intros (f & ?%elem_of_nil & _).
  - destruct (search_string_in_file fs f t) as [found|e] eqn:E; [|done].
    simpl. unfold search_string_in_file, open in E.
    destruct (fs !! f) as [content|] eqn:Hf; [|done].
    destruct (search_string_in_file_spec fs f t content Hf) as (found' & E' & Hfound).
    unfold search_string_in_file, open in E'. rw Hf in E'. rw E in E'.
    injection E' as <-. destruct found.
    + intros [= <-]. split; [|done]. intros _. exists f. split; [left|].
      by apply Hfound.
    + intros Hb. rw (IH b Hb). split.
      * intros (f' & ? & ?). exists f'. split; [by right|done].
      * intros (f' & [->|?]%elem_of_cons & Hc); [|by exists f'].
        by apply Hfound in Hc.
Qed.

Lemma any_search_false_readable fs l t :
  any_search fs l t = Ok false → readable fs l.
Proof.
  induction l as [|f l IH]; simpl; intros Hs p Hp; [by apply elem_of_nil in Hp|].
  destruct (search_string_in_file fs f t) as [[]|e] eqn:E; try done.
  simpl in Hs. apply elem_of_cons in Hp as [->|Hp]; [|by apply IH].
  unfold search_string_in_file, open in E. by destruct (fs !! f).
Qed.

Lemma any_search_unreadable fs l t f :
  f ∈ l → fs !! f = None → ¬ covered_by fs l t →
  any_search fs l t = Raise OSError.
Proof.
  intros Hf Hnone Hnc. destruct (any_search fs l t) as [[]|e] eqn:E.
  - destruct Hnc. by apply (any_search_Ok _ _ _ _ E).
  - destruct (any_search_false_readable _ _ _ E f Hf) as [? Hsome].
    by rw Hnone in Hsome.
  - by rw (any_search_Raise _ _ _ _ E).
Qed.

Lemma reconcile_loop_Raise_only fs l tests acc e :
  reconcile_loop fs l tests acc = Raise e → e = OSError.
Proof.
  revert acc. induction tests as [|t tests IH]; intros acc; simpl; [done|].
  destruct (any_search fs l t) as [b|e'] eqn:E; simpl.
  - apply IH.
  - intros [= <-]. by apply any_search_Raise in E.
Qed.

Lemma reconcile_loop_Raise fs l tests acc t :
  t ∈ tests → any_search fs l t = Raise OSError →
  reconcile_loop fs l tests acc = Raise OSError.
Proof.
  revert acc. induction tests as [|t' tests IH]; intros acc Hin Hs;
    [by apply elem_of_nil in Hin|].
  simpl. destruct (any_search fs l t') as [b|e] eqn:E; simpl.
  - apply elem_of_cons in Hin as [->|Hin]; [by rw Hs in E|by apply IH].
  - by rw (any_search_Raise _ _ _ _ E).
Qed.

Lemma reconcile_loop_Ok fs l tests acc cov uncov :
  reconcile_loop fs l tests acc = Ok (cov, uncov) →
  (∀ t, t ∈ cov ↔ t ∈ acc.1 ∨ (t ∈ tests ∧ covered_by fs l t))
  ∧ (∀ t, t ∈ uncov ↔ t ∈ acc.2 ∨ (t ∈ tests ∧ ¬ covered_by fs l t)).
Proof.
  revert acc. induction tests as [|test rest IH]; intros [a1 a2]; simpl.
  - intros [= <- <-]. split; intros t; set_solver.
  - destruct (any_search fs l test) as [b|e] eqn:E; [|done]. simpl.
    pose proof (any_search_Ok _ _ _ _ E) as Hb.
    intros [Hcov Huncov]%IH.
    assert (covered_by fs l test ↔ b = true) as Hc by done.
    split; intros t; [rw Hcov|rw Huncov]; destruct b; simpl;
      rw ?elem_of_union ?elem_of_singleton elem_of_cons.
    + naive_solver.
    + split; [naive_solver|].
      intros [?|[[->|?] Ht]]; [by left| |by right].
      by apply Hc in Ht.
    + split; [naive_solver|].
      intros [?|[[->|?] Ht]]; [by left| |by right].
      destruct Ht. by apply Hc.
    + split; [|naive_solver].
      intros [[->|?]|[? ?]]; [|by left|right; split; [by right|done]].
      right. split; [by left|]. by intros ?%Hc.
Qed.

(** X4. When the walk yields no Rust file, the reconciler opens nothing
    and returns every candidate id as uncovered. *)
Theorem reconcile_empty_corpus fs walk tests_files :
  get_rust_files walk = [] →
  get_tests_with_and_without_rust_files fs walk tests_files
  = Ok (∅, list_to_set tests_files).
Proof.
  intros Hw. unfold get_tests_with_and_without_rust_files. rw Hw.
  rw list_to_set_nil elements_empty.
  enough (∀ acc, reconcile_loop fs [] tests_files acc
                 = Ok (acc.1, list_to_set tests_files ∪ acc.2)) as ->.
  { simpl. f_equal. f_equal. set_solver. }
  induction tests_files as [|t tests IH]; intros [a1 a2]; simpl.
  - f_equal. f_equal. set_solver.
  - rw IH. simpl. f_equal. f_equal. set_solver.
Qed.

Lemma reconcile_empty_corpus_witness :
  get_tests_with_and_without_rust_files ∅ [("r", ["d"], ["notes.txt"])]
    ["open/01.t"; "open/02.t"]
  = Ok (∅, list_to_set ["open/01.t"; "open/02.t"]).
Proof. apply reconcile_empty_corpus. vm_compute. reflexivity. Defined.

(** X5. A file of the corpus that cannot be opened ends the
    reconciliation with [OSError] as soon as the candidates include an id
    that no file covers: that id makes the scan reach every file. *)
Theorem reconcile_unreadable_file fs walk tests_files rust_file test :
  rust_file ∈ get_rust_files walk → fs !! rust_file = None →
  test ∈ tests_files → ¬ covered_by fs (get_rust_files walk) test →
  get_tests_with_and_without_rust_files fs walk tests_files = Raise OSError.
Proof.
  intros Hf Hnone Ht Hnc. unfold get_tests_with_and_without_rust_files.
  apply (reconcile_loop_Raise _ _ _ _ test); [done|].
  apply (any_search_unreadable _ _ _ rust_file); [|done|].
  - by apply rust_files_elements.
  - intros (f & Hin%rust_files_elements & Hc). apply Hnc. by exists f.
Qed.

Lemma reconcile_unreadable_file_witness :
  get_tests_with_and_without_rust_files
    {["../../rust/src/tests/mod.rs" := "mod open;"]} (sample_walk rust_dir)
    ["open/01.t"]
  = Raise OSError.
Proof.
  apply (reconcile_unreadable_file _ _ _
           "../../rust/src/tests/open/first.rs" "open/01.t").
  - apply list_elem_of_In. vm_compute. right. left. reflexivity.
  - vm_compute. reflexivity.
  - by left.
  - intros (f & Hf & content & line & Hfs & Hin & Hsub).
    apply contains_spec in Hsub. apply list_elem_of_In in Hf.
    vm_compute in Hf. destruct Hf as [<-|[<-|[]]].
    + rw lookup_singleton_eq in Hfs. injection Hfs as <-.
      apply list_elem_of_In in Hin. vm_compute in Hin.
      destruct Hin as [<-|[]]. vm_compute in Hsub. discriminate Hsub.
    + vm_compute in Hfs. discriminate Hfs.
Defined.

(** X6. The scan of the corpus for one id stops at the first file that
    has it: the files after that one are not opened, so one of them that
    cannot be read does no harm. *)
Theorem any_search_short_circuit fs before rust_file after test :
  readable fs before → covers fs rust_file test →
  any_search fs (before ++ rust_file :: after) test = Ok true.
Proof.
  intros Hr Hc. induction before as [|f before IH]; simpl.
  - destruct Hc as (content & line & Hfs & Hin & Hsub).
    destruct (search_string_in_file_spec fs rust_file test content Hfs)
      as (b & -> & Hb).
    assert (b = true) as ->; [|done].
    apply Hb. by exists content, line.
  - destruct (Hr f) as [content Hfs]; [left|].
    destruct (search_string_in_file_spec fs f test content Hfs) as (b & -> & _).
    simpl. destruct b; [done|]. apply IH. intros p Hp. apply Hr. by right.
Qed.

Lemma any_search_short_circuit_witness :
  any_search {["a.rs" := "// open/01.t"]} ([] ++ "a.rs" :: ["gone.rs"])
    "open/01.t"
  = Ok true.
Proof.
  apply any_search_short_circuit.
  - by intros p ?%elem_of_nil.
  - exists "// open/01.t", "// open/01.t". split; [apply lookup_singleton_eq|].
    split.
    + apply list_elem_of_In. vm_compute. left. reflexivity.
    + by exists "// ", "".
Defined.

(** ** Outcome of the report script *)

Lemma split_no_sep c s : Str.count c s = 0 → Str.split c s = [s].
Proof.
  induction s as [|a s IH]; simpl; [done|].
  case_bool_decide; [done|]. intros Hc. by rw IH.
Qed.

Lemma split_app_sep c x y :
  Str.count c x = 0 → Str.split c (x +:+ String c y) = x :: Str.split c y.
Proof.
  induction x as [|a x IH]; simpl.
  - intros _. by rw bool_decide_true.
  - case_bool_decide; [done|]. intros Hc. by rw IH.
Qed.

Lemma well_formed_manifest_line line :
  well_formed (Str.split Str.tab line) ↔ manifest_line line.
Proof.
  split.
  - intros (id & desc & syscall & test_name & Ht & Hs).
    destruct (split_two _ _ _ _ Ht) as (-> & Hid & Hdesc).
    destruct (split_two _ _ _ _ Hs) as (-> & Hsys & Hname).
    rw count_append in Hid. simpl in Hid.
    exists syscall, test_name, desc. repeat split; try done; lia.
  - intros (syscall & test_name & desc & -> & Hs1 & Hs2 & Ht1 & Ht2 & Ht3).
    exists (syscall +:+ "/" +:+ test_name), desc, syscall, test_name. split.
    + rw split_app_sep.
      { rw count_append Ht1. simpl. by rw Ht2. }
      by rw split_no_sep.
    + change (syscall +:+ "/" +:+ test_name)
        with (syscall +:+ String Str.slash test_name).
      rw split_app_sep; [done|]. by rw split_no_sep.
Qed.

(** X7. With a readable corpus, [main] ends without exception exactly
    when the manifest can be read and every one of its lines has the
    format syscall, slash, name, tab, description.  When the manifest
    cannot be read it ends with [OSError]; whenever it ends with an
    exception it has printed nothing. *)
Theorem main_succeeds_iff w :
  readable (files w) (get_rust_files (walk w rust_dir)) →
  ((main w).2 = None ↔
   ∃ content,
     files w !! tests_dir = Some content
     ∧ ∀ line, line ∈ Str.readlines content → manifest_line line)
  ∧ (files w !! tests_dir = None → main w = ([], Some OSError))
  ∧ ((main w).2 ≠ None → (main w).1 = []).
Proof.
  intros Hr. split; [|split].
  - split.
    + unfold main. destruct (main_locals w) as [[cov syscalls]|e] eqn:Hm; [|done].
      intros _.
      destruct (main_locals_inv _ _ _ Hm) as (content & _ & _ & Hc & _ & _ & Hg).
      exists content. split; [done|]. intros line Hline.
      apply well_formed_manifest_line.
      pose proof (group_loop_inv _ _ _ _ Hg) as Hwf.
      eapply Forall_forall in Hwf; [done|].
      apply elem_of_manifest_records. eauto.
    + intros (content & Hc & Hlines).
      destruct (main_locals_group w content Hc Hr) as [cov Hm].
      destruct (group_loop_ok cov (manifest_records content) ∅) as (m & Hg & _).
      { apply Forall_forall. intros r (line & Hline & ->)%elem_of_manifest_records.
        by apply well_formed_manifest_line, Hlines. }
      unfold main. by rw Hm Hg.
  - intros Hc. unfold main, main_locals, get_tests_filenames_from_spec, open.
    by rw Hc.
  - unfold main. by destruct (main_locals w) as [[??]|?].
Qed.

Lemma main_succeeds_iff_witness :
  ((main sample_world).2 = None ↔
   ∃ content,
     files sample_world !! tests_dir = Some content
     ∧ ∀ line, line ∈ Str.readlines content → manifest_line line)
  ∧ (files sample_world !! tests_dir = None
     → main sample_world = ([], Some OSError))
  ∧ ((main sample_world).2 ≠ None → (main sample_world).1 = []).
Proof. apply main_succeeds_iff, sample_readable. Defined.

(** X8. On an empty manifest [main] prints nothing and ends normally,
    without opening any file of the corpus. *)
Theorem main_empty_manifest w :
  files w !! tests_dir = Some "" → main w = ([], None).
Proof.
  intros Hc. unfold main, main_locals, get_tests_filenames_from_spec, open.
  rw Hc. simpl. rw elements_empty. simpl.
  unfold render, report_blocks, sorted_items. by rw map_to_list_empty.
Qed.

Lemma main_empty_manifest_witness :
  main (mkWorld {[tests_dir := ""]} (λ _, [("r", [], ["gone.rs"])]))
  = ([], None).
Proof. apply main_empty_manifest. apply lookup_singleton_eq. Defined.

(** ** Rows of the report *)

Lemma mapM_tuple_first_elem (records : list (list string)) ids x rest :
  mapM tuple_first records = Ok ids → (x :: rest) ∈ records → x ∈ ids.
Proof.
  revert ids. induction records as [|r rs IH]; intros ids Hm Hin;
    [by apply elem_of_nil in Hin|].
  simpl in Hm. destruct r as [|y r]; [done|]. simpl in Hm.
  destruct (mapM tuple_first rs) as [ids'|] eqn:E; [|done].
  simpl in Hm. injection Hm as <-.
  apply elem_of_cons in Hin as [[= <- <-]|Hin]; [by left|].
  right. by apply IH.
Qed.

(** X9. When [main] prints the report, its rows are the lines of the
    manifest: a test is a row of the block of a syscall exactly when some
    line splits into the id made of that syscall and the name of the
    test, and the description of the test, and the row records whether
    that id is in the covered set. *)
Theorem report_rows_are_manifest_lines w cov syscalls content k t :
  main_locals w = Ok (cov, syscalls) →
  files w !! tests_dir = Some content →
  (∃ tests, (k, tests) ∈ report_blocks syscalls ∧ t ∈ tests) ↔
  ∃ line,
    line ∈ Str.readlines content
    ∧ Str.split Str.tab line = [k +:+ "/" +:+ name t; description t]
    ∧ Str.count Str.slash k = 0 ∧ Str.count Str.slash (name t) = 0
    ∧ has_rust_file t = bool_decide (k +:+ "/" +:+ name t ∈ cov).
Proof.
  intros Hm Hc.
  destruct (main_locals_inv _ _ _ Hm) as (content' & _ & _ & Hc' & _ & _ & Hg).
  rw Hc in Hc'. injection Hc' as <-.
  pose proof (group_loop_lookup _ _ _ k Hg) as Hk. split.
  - intros (tests & (tests0 & Hk0 & ->)%elem_of_report_blocks & Ht).
    rw sorted_by_Permutation in Ht. rw Hk0 in Hk.
    assert (t ∈ omap (record_test cov k) (manifest_records content)) as Ht'.
    { destruct (omap _ _); [done|]. by injection Hk as ->. }
    apply list_elem_of_omap in Ht' as (r & Hr & Hrt).
    destruct (record_test_Some _ _ _ _ Hrt) as (testfile & -> & Hs & -> & Hcov).
    apply elem_of_manifest_records in Hr as (line & Hline & Hsplit).
    exists line. destruct (split_two _ _ _ _ Hs) as (_ & ? & ?). done.
  - intros (line & Hline & Hsplit & Hk1 & Hk2 & Hcov).
    assert (record_test cov k (Str.split Str.tab line) = Some t) as Hrt.
    { rw Hsplit. unfold record_test.
      change (k +:+ "/" +:+ name t) with (k +:+ String Str.slash (name t)).
      rw split_app_sep; [done|]. rw split_no_sep; [done|].
      rw bool_decide_true; [done|]. f_equal. destruct t. simpl in *.
      by rw Hcov. }
    assert (t ∈ omap (record_test cov k) (manifest_records content)) as Ht.
    { apply list_elem_of_omap. exists (Str.split Str.tab line).
      split; [|done]. apply elem_of_manifest_records. eauto. }
    destruct (omap (record_test cov k) (manifest_records content))
      as [|t' ts] eqn:E; [by apply elem_of_nil in Ht|].
    exists (sorted_by name (t' :: ts)). split.
    + apply elem_of_report_blocks. eauto.
    + by rw sorted_by_Permutation.
Qed.

Lemma report_rows_are_manifest_lines_witness :
  let t := mkTest "01.t" true ("Opens a file" +:+ String Str.newline "") in
  (∃ tests, ("open", tests) ∈ report_blocks sample_locals.2 ∧ t ∈ tests) ↔
  ∃ line,
    line ∈ Str.readlines (tab_line "open/01.t" "Opens a file"
                           +:+ tab_line "open/02.t" "Opens a dir")
    ∧ Str.split Str.tab line = ["open" +:+ "/" +:+ name t; description t]
    ∧ Str.count Str.slash "open" = 0 ∧ Str.count Str.slash (name t) = 0
    ∧ has_rust_file t = bool_decide ("open" +:+ "/" +:+ name t ∈ sample_locals.1).
Proof.
  apply (report_rows_are_manifest_lines sample_world).
  - apply sample_main_locals.
  - vm_compute. reflexivity.
Defined.

(** X10. The Converted cell of a row says Yes exactly when some file of
    the corpus has a line that contains the id of the row, syscall, slash
    and name. *)
Theorem converted_cell_iff_covered w cov syscalls k tests t :
  main_locals w = Ok (cov, syscalls) →
  (k, tests) ∈ report_blocks syscalls → t ∈ tests →
  render_row t !! 3%nat
  = Some (if has_rust_file t then "<td>Yes</td>" else "<td>No</td>")
  ∧ (has_rust_file t = true ↔
     ∃ rust_file content line,
       rust_file ∈ get_rust_files (walk w rust_dir)
       ∧ files w !! rust_file = Some content
       ∧ line ∈ Str.readlines content
       ∧ is_substring (k +:+ "/" +:+ name t) line).
Proof.
  intros Hm (tests0 & Hk0 & ->)%elem_of_report_blocks Ht.
  split; [unfold render_row; by destruct (has_rust_file t)|].
  destruct (main_locals_inv _ _ _ Hm)
    as (content & ids & uncov & _ & Hids & Hrec & Hg).
  rw sorted_by_Permutation in Ht.
  rw (group_loop_lookup _ _ _ k Hg) in Hk0.
  assert (t ∈ omap (record_test cov k) (manifest_records content)) as Ht'.
  { destruct (omap _ _); [done|]. by injection Hk0 as ->. }
  apply list_elem_of_omap in Ht' as (r & Hr & Hrt).
  destruct (record_test_Some _ _ _ _ Hrt) as (testfile & -> & _ & -> & ->).
  pose proof (mapM_tuple_first_elem _ _ _ _ Hids Hr) as Hid.
  unfold get_tests_with_and_without_rust_files in Hrec.
  apply reconcile_loop_Ok in Hrec as [Hcov _]. simpl in Hcov.
  rw bool_decide_eq_true Hcov. split.
  - intros [?%not_elem_of_empty|[_ (f & Hf & c & l & ? & ? & ?)]]; [done|].
    exists f, c, l. by rw -rust_files_elements.
  - intros (f & c & l & Hf & ? & ? & ?). right. split; [done|].
    exists f. split; [by apply rust_files_elements|]. by exists c, l.
Qed.

Lemma converted_cell_iff_covered_witness :
  let t := mkTest "01.t" true ("Opens a file" +:+ String Str.newline "") in
  render_row t !! 3%nat
  = Some (if has_rust_file t then "<td>Yes</td>" else "<td>No</td>")
  ∧ (has_rust_file t = true ↔
     ∃ rust_file content line,
       rust_file ∈ get_rust_files (walk sample_world rust_dir)
       ∧ files sample_world !! rust_file = Some content
       ∧ line ∈ Str.readlines content
       ∧ is_substring ("open" +:+ "/" +:+ name t) line).
Proof.
  apply (converted_cell_iff_covered sample_world sample_locals.1 sample_locals.2
           "open"
           [ mkTest "01.t" true ("Opens a file" +:+ String Str.newline "");
             mkTest "02.t" false ("Opens a dir" +:+ String Str.newline "") ]).
  - apply sample_main_locals.
  - apply elem_of_report_blocks.
    exists [ mkTest "02.t" false ("Opens a dir" +:+ String Str.newline "");
             mkTest "01.t" true ("Opens a file" +:+ String Str.newline "") ].
    split; vm_compute; reflexivity.
  - by left.
Defined.

Lemma total_entries_insert (m : gmap string (list Test)) k tests :
  m !! k = None → total_entries (<[k := tests]> m) = length tests + total_entries m.
Proof.
  intros Hk. unfold total_entries. by rw map_to_list_insert.
Qed.

Lemma total_entries_lookup (m : gmap string (list Test)) k tests :
  m !! k = Some tests →
  total_entries m = length tests + total_entries (delete k m).
Proof.
  intros Hk. unfold total_entries. by rw -(map_to_list_delete m k tests Hk).
Qed.

Lemma group_record_total cov m r m' :
  group_record cov m r = Ok m' → total_entries m' = S (total_entries m).
Proof.
  unfold group_record. destruct r as [|testfile [|desc [|??]]]; try done.
  destruct (Str.split Str.slash testfile) as [|syscall [|test_name [|??]]];
    try done.
  intros [= <-]. destruct (m !! syscall) as [tests|] eqn:Hk.
  - rw -{1}(insert_id m syscall tests Hk) alter_insert_eq -insert_delete_eq.
    rw total_entries_insert; [apply lookup_delete_eq|].
    rw (total_entries_lookup m syscall tests Hk) length_app. simpl. lia.
  - rw alter_insert_eq total_entries_insert; [done|]. done.
Qed.

Lemma group_loop_total cov rs m m' :
  group_loop cov rs m = Ok m' → total_entries m' = total_entries m + length rs.
Proof.
  revert m. induction rs as [|r rs IH]; intros m; simpl.
  - intros [= <-]. lia.
  - destruct (group_record cov m r) as [m1|] eqn:E; [|done]. simpl.
    intros ->%IH. rw (group_record_total _ _ _ _ E). lia.
Qed.

Lemma sum_sorted_blocks (l : list (string * list Test)) :
  sum_list_with (λ block, length block.2)
    ((λ item, (item.1, sorted_by name item.2)) <$> l)
  = sum_list_with (λ item, length item.2) l.
Proof.
  induction l as [|[k tests] l IH]; [done|].
  rw fmap_cons. simpl. rw IH. f_equal.
  apply Permutation_length, sorted_by_Permutation.
Qed.

Lemma total_entries_report (syscalls : gmap string (list Test)) :
  sum_list_with (λ block, length block.2) (report_blocks syscalls)
  = total_entries syscalls.
Proof.
  unfold report_blocks, total_entries, sorted_items. rw sum_sorted_blocks.
  by rw sorted_by_Permutation.
Qed.

(** X11. The report has one row for each distinct line of the manifest:
    over all its blocks, the number of rows is the size of the set of
    tuples read, so that no record is left out and none is printed
    twice. *)
Theorem report_row_count w cov syscalls content :
  main_locals w = Ok (cov, syscalls) →
  files w !! tests_dir = Some content →
  sum_list_with (λ block, length block.2) (report_blocks syscalls)
  = size (list_to_set (C:=gset (list string))
            (Str.split Str.tab <$> Str.readlines content)).
Proof.
  intros Hm Hc.
  destruct (main_locals_inv _ _ _ Hm) as (content' & _ & _ & Hc' & _ & _ & Hg).
  rw Hc in Hc'. injection Hc' as <-.
  rw total_entries_report (group_loop_total _ _ _ _ Hg).
  unfold total_entries. by rw map_to_list_empty.
Qed.

Lemma report_row_count_witness :
  sum_list_with (λ block, length block.2) (report_blocks sample_locals.2)
  = size (list_to_set (C:=gset (list string))
            (Str.split Str.tab
               <$> Str.readlines (tab_line "open/01.t" "Opens a file"
                                  +:+ tab_line "open/02.t" "Opens a dir"))).
Proof.
  apply (report_row_count sample_world sample_locals.1).
  - apply sample_main_locals.
  - vm_compute. reflexivity.
Defined.

(** A line that the manifest has twice gives one row. *)
Example duplicated_line_one_row :
  (main (world_with_manifest (tab_line "open/01.t" "Opens a file"
                              +:+ tab_line "open/01.t" "Opens a file"))).1
  = [ "<details>";
      "<summary>open <progress value='1' max='1'></progress></summary>";
      "<table>"; "<tr>"; "<th>Test</th>"; "<th>Description</th>";
      "<th>Converted</th>"; "</tr>";
      "<tr>"; "<td>01.t</td>";
      "<td>Opens a file" +:+ String Str.newline "" +:+ "</td>";
      "<td>Yes</td>"; "</tr>";
      "</table>"; "</details>"; "" ].
Proof. vm_compute. reflexivity. Qed.

(** ** The descriptor finder of the report script, on files that have a
    descriptor line *)

Lemma find_desc_in_lines_first before line after :
  (∀ l, l ∈ before → ¬ ∃ rest, l = "desc=" +:+ rest) →
  (∃ rest, line = "desc=" +:+ rest) →
  find_desc_in_lines (before ++ line :: after)
  = Str.strip (Str.slice_neg 6 2 line).
Proof.
  intros Hno Hline. induction before as [|l before IH].
  - cbn [app find_desc_in_lines]. apply startswith_spec in Hline. by rw Hline.
  - cbn [app find_desc_in_lines].
    destruct (Str.startswith l "desc=") eqn:E.
    + apply startswith_spec in E. destruct (Hno l); [by left|done].
    + apply IH. intros l' ?. apply Hno. by right.
Qed.

Lemma take_append_length (a b : string) :
  Str.take (String.length a) (a +:+ b) = a.
Proof. induction a as [|c a IH]; simpl; [by destruct b|]. by rw IH. Qed.

Lemma drop_short n (s : string) :
  (String.length s ≤ n)%nat → Str.drop n s = "".
Proof.
  revert n. induction s as [|c s IH]; intros [|n] Hl; simpl in *;
    try done; try lia.
  apply IH. lia.
Qed.

Lemma length_take n (s : string) :
  String.length (Str.take n s) = (n `min` String.length s)%nat.
Proof.
  revert n. induction s as [|c s IH]; intros [|n]; simpl; try done.
  by rw IH.
Qed.

Lemma slice_neg_desc c text e1 e2 :
  Str.slice_neg 6 2 ("desc=" +:+ String c (text +:+ String e1 (String e2 "")))
  = text.
Proof.
  unfold Str.slice_neg.
  change ("desc=" +:+ String c (text +:+ String e1 (String e2 "")))
    with (("desc=" +:+ String c text) +:+ String e1 (String e2 "")).
  rw length_append.
  replace (String.length ("desc=" +:+ String c text)
           + String.length (String e1 (String e2 "")) - 2)
    with (String.length ("desc=" +:+ String c text)) by (simpl; lia).
  by rw take_append_length.
Qed.

(** X12. [find_file_description] answers from the first line that starts
    with [desc=]: it drops the character after the equals sign and the
    last two characters of the line, whatever they are, and strips the
    rest; when fewer than four characters follow [desc=] the answer is
    the empty string. *)
Theorem find_file_description_first_line fs file_path content before line after :
  fs !! file_path = Some content →
  Str.readlines content = (before ++ line :: after)%list →
  (∀ l, l ∈ before → ¬ ∃ rest, l = "desc=" +:+ rest) →
  (∀ c text e1 e2,
     line = "desc=" +:+ String c (text +:+ String e1 (String e2 "")) →
     find_file_description fs file_path = Ok (Str.strip text))
  ∧ (∀ rest,
       line = "desc=" +:+ rest → (String.length rest ≤ 3)%nat →
       find_file_description fs file_path = Ok "").
Proof.
  intros Hc Hlines Hno. unfold find_file_description, open. rw Hc. simpl.
  rw Hlines. split.
  - intros c text e1 e2 ->. rw find_desc_in_lines_first; [done|by eexists|].
    do 2 f_equal. apply slice_neg_desc.
  - intros rest -> Hl. rw find_desc_in_lines_first; [done|by eexists|].
    unfold Str.slice_neg. rw drop_short; [|done].
    rw length_take length_append.
    change (String.length "desc=") with 5%nat. lia.
Qed.

Lemma find_file_description_first_line_witness :
  find_file_description {["a.t" := desc_line_file]} "a.t" = Ok "chmod works"
  ∧ find_file_description {["b.t" := desc_last_line_file]} "b.t" = Ok "ab"
  ∧ find_file_description {["c.t" := "desc=abc"]} "c.t" = Ok "".
Proof.
  split; [|split].
  - destruct (find_file_description_first_line
                {["a.t" := desc_line_file]} "a.t" desc_line_file
                ["#!/bin/sh" +:+ String Str.newline ""]
                ("desc=" +:+ String Str.dquote " chmod works "
                 +:+ String Str.dquote (String Str.newline "")) []
                ltac:(apply lookup_singleton_eq) ltac:(vm_compute; reflexivity)
                ltac:(by intros l ->%list_elem_of_singleton [rest [=]]))
      as [Hcut _].
    apply (Hcut Str.dquote " chmod works " Str.dquote Str.newline).
    reflexivity.
  - destruct (find_file_description_first_line
                {["b.t" := desc_last_line_file]} "b.t" desc_last_line_file []
                desc_last_line_file []
                ltac:(apply lookup_singleton_eq) ltac:(vm_compute; reflexivity)
                ltac:(by intros l ?%elem_of_nil))
      as [Hcut _].
    apply (Hcut Str.dquote "ab" "c"%char Str.dquote). reflexivity.
  - destruct (find_file_description_first_line
                {["c.t" := "desc=abc"]} "c.t" "desc=abc" [] "desc=abc" []
                ltac:(apply lookup_singleton_eq) ltac:(vm_compute; reflexivity)
                ltac:(by intros l ?%elem_of_nil))
      as [_ Hshort].
    apply (Hshort "abc"); [reflexivity|simpl; lia].
Defined.

Lemma lstrip_head s c rest :
  Str.lstrip s = String c rest → Str.isspace c = false.
Proof.
  induction s as [|a s IH]; [done|]. cbn [Str.lstrip].
  destruct (Str.isspace a) eqn:E; [done|]. by intros [= <- _].
Qed.

Lemma lstrip_suffix s : ∃ pre, s = pre +:+ Str.lstrip s.
Proof.
  induction s as [|a s [pre IH]]; [by exists ""|]. cbn [Str.lstrip].
  destruct (Str.isspace a); [|by exists ""].
  exists (String a pre). by rw app_cons_string -IH.
Qed.

Lemma strip_ends s :
  (∀ c rest, Str.strip s = String c rest → Str.isspace c = false)
  ∧ (∀ c pre, Str.strip s = pre +:+ String c "" → Str.isspace c = false).
Proof.
  unfold Str.strip. set (u := Str.lstrip s). set (v := Str.lstrip (String.rev u)).
  split.
  - intros c rest Hv.
    assert (v = String.rev rest +:+ String c "") as Hv'.
    { by rw -(rev_involutive_string v) Hv rev_cons_string. }
    destruct (lstrip_suffix (String.rev u)) as [pre Hu]. fold v in Hu.
    rw Hv' in Hu.
    assert (u = String c (rest +:+ String.rev pre)) as Hu'.
    { rw -(rev_involutive_string u) Hu !rev_append rev_involutive_string.
      done. }
    by apply (lstrip_head s c (rest +:+ String.rev pre)).
  - intros c pre Hv.
    assert (v = String c (String.rev pre)) as Hv'.
    { by rw -(rev_involutive_string v) Hv rev_append. }
    by apply (lstrip_head (String.rev u) c (String.rev pre)).
Qed.

Lemma find_desc_in_lines_cases lines :
  find_desc_in_lines lines = "" ∨ ∃ s, find_desc_in_lines lines = Str.strip s.
Proof.
  induction lines as [|line rest IH]; [by left|]. cbn [find_desc_in_lines].
  destruct (Str.startswith line "desc="); [right; by eexists|done].
Qed.

(** X13. The description [find_file_description] returns never starts
    and never ends with a white space character. *)
Theorem find_file_description_stripped fs file_path d :
  find_file_description fs file_path = Ok d →
  (∀ c rest, d = String c rest → Str.isspace c = false)
  ∧ (∀ c pre, d = pre +:+ String c "" → Str.isspace c = false).
Proof.
  unfold find_file_description, open. destruct (fs !! file_path); [|done].
  simpl. intros [= <-].
  destruct (find_desc_in_lines_cases (Str.readlines s)) as [->|[x ->]].
  - split; [done|]. intros c pre. by destruct pre.
  - apply strip_ends.
Qed.

Lemma find_file_description_stripped_witness :
  (∀ c rest, "chmod works" = String c rest → Str.isspace c = false)
  ∧ (∀ c pre, "chmod works" = pre +:+ String c "" → Str.isspace c = false).
Proof.
  apply (find_file_description_stripped {["a.t" := desc_line_file]} "a.t").
  vm_compute. reflexivity.
Defined.

(** ** The issue script: listing, task lists and trace *)

Lemma files_of_tree_distinct_witness :
  Issues.files_of_tree sample_tree
  = directory_item <$> filter is_directory sample_tree.
Proof.
  apply files_of_tree_distinct. vm_compute.
  repeat constructor; intros Hin; apply list_elem_of_In in Hin;
    vm_compute in Hin; by repeat destruct Hin as [[=]|Hin].
Defined.

Lemma build_task_list_Raise fs syscall files e :
  Issues.build_task_list fs syscall files = Raise e → e = OSError.
Proof.
  induction files as [|file files IH]; simpl; [done|].
  unfold Issues.read_header, open.
  destruct (fs !! _) as [content|]; simpl; [|by intros [= <-]].
  destruct (Issues.build_task_list fs syscall files); simpl; [done|].
  intros [= <-]. by apply IH.
Qed.

(** X15. When every file of a directory can be read, its task list has
    one task per file, in the order of the listing, each made from the
    first 600 characters of its file; when one of the files cannot be
    read, building the list raises [OSError]. *)
Theorem build_task_list_spec fs syscall files :
  ((∀ file, file ∈ files → is_Some (fs !! test_path syscall file)) →
   ∃ tasks,
     Issues.build_task_list fs syscall files = Ok tasks
     ∧ Forall2 (task_of fs syscall) files tasks)
  ∧ ((∃ file, file ∈ files ∧ fs !! test_path syscall file = None) →
     Issues.build_task_list fs syscall files = Raise OSError).
Proof.
  split.
  - induction files as [|file files IH]; intros Hr.
    { exists []. split; [done|constructor]. }
    destruct (Hr file) as [content Hc]; [left|].
    destruct IH as (tasks & Htasks & Hall).
    { intros f ?. apply Hr. by right. }
    exists (Issues.task_line file
              (Issues.header_description (Str.take 600 content)) :: tasks).
    split.
    + cbn [Issues.build_task_list]. unfold Issues.read_header, open.
      fold (test_path syscall file). rw Hc. simpl. by rw Htasks.
    + constructor; [by exists content|done].
  - intros (file & Hin & Hnone).
    destruct (Issues.build_task_list fs syscall files) as [tasks|e] eqn:E.
    + exfalso. revert tasks E.
      induction files as [|f files IH]; intros tasks E;
        [by apply elem_of_nil in Hin|].
      cbn [Issues.build_task_list] in E. unfold Issues.read_header, open in E.
      fold (test_path syscall f) in E.
      apply elem_of_cons in Hin as [->|Hin].
      * by rw Hnone in E.
      * destruct (fs !! test_path syscall f); [|done]. simpl in E.
        destruct (Issues.build_task_list fs syscall files) as [tasks'|];
          [|done].
        by apply (IH Hin tasks').
    + by rw (build_task_list_Raise _ _ _ _ E).
Qed.

Lemma build_task_list_spec_witness :
  (∃ tasks,
     Issues.build_task_list IssuesSpec.sample_tests "open" ["01.t"; "02.t"]
     = Ok tasks
     ∧ Forall2 (task_of IssuesSpec.sample_tests "open") ["01.t"; "02.t"] tasks)
  ∧ Issues.build_task_list IssuesSpec.sample_tests "open" ["01.t"; "03.t"]
    = Raise OSError.
Proof.
  split.
  - apply build_task_list_spec.
    intros file Hin. apply list_elem_of_In in Hin. vm_compute in Hin.
    destruct Hin as [<-|[<-|[]]]; by eexists.
  - apply build_task_list_spec. exists "03.t". split; [by right; left|].
    vm_compute. reflexivity.
Defined.

Lemma dispatch_loop_invariant fs gh n items :
  let run := Issues.dispatch_loop fs gh n items in
  Forall2 (command_of fs)
    (take (length (Issues.runs run.1)) items) (Issues.runs run.1)
  ∧ (run.2 = Ok () → length (Issues.runs run.1) = length items)
  ∧ (run.2 = Raise CalledProcessError → 0 < length (Issues.runs run.1))
  ∧ sleeps run.1
    = replicate (match run.2 with
                 | Raise CalledProcessError => pred (length (Issues.runs run.1))
                 | _ => length (Issues.runs run.1)
                 end) 10.
Proof.
  revert n. induction items as [|[syscall files] items IH]; intros n.
  { simpl. split_and!; done. }
  cbn [Issues.dispatch_loop].
  destruct (Issues.build_task_list fs syscall files) as [tasks|e] eqn:Eb.
  2:{ rw (build_task_list_Raise _ _ _ _ Eb). simpl. split_and!; done. }
  destruct (gh n (Issues.issue_cmd syscall tasks)) as [out|] eqn:Eg.
  2:{ simpl. split_and!; try done; try lia.
      rw take_0. apply Forall2_cons. split; [by exists tasks|done]. }
  specialize (IH (S n)).
  destruct (Issues.dispatch_loop fs gh (S n) items) as [trace r].
  simpl in *. destruct IH as (Hcmds & Hok & Hfail & Hsleeps).
  split_and!.
  - apply Forall2_cons. split; [by exists tasks|done].
  - intros Hr. by rw Hok.
  - lia.
  - change (sleeps (Issues.Run (Issues.issue_cmd syscall tasks)
                    :: Issues.Print out :: Issues.Sleep 10 :: trace))
      with (10 :: sleeps trace).
    rw Hsleeps. destruct r as [[]|[]]; try done.
    specialize (Hfail eq_refl).
    destruct (length (Issues.runs trace)); [lia|done].
Qed.

(** X16. Whatever the tracker client answers and whichever files can be
    read, the commands the issue script starts are those of the first
    directories of [files], one each and in order; it ends normally only
    after starting one for every directory; and it sleeps 10 seconds once
    for every command that succeeded, that is after every command started
    except one that failed. *)
Theorem create_issues_trace fs gh contents :
  let run := Issues.create_issues fs gh contents in
  let items := Issues.files_of_tree contents in
  Forall2 (command_of fs)
    (take (length (Issues.runs run.1)) items) (Issues.runs run.1)
  ∧ (run.2 = Ok () → length (Issues.runs run.1) = length items)
  ∧ (run.2 = Raise CalledProcessError → 0 < length (Issues.runs run.1))
  ∧ sleeps run.1
    = replicate (match run.2 with
                 | Raise CalledProcessError => pred (length (Issues.runs run.1))
                 | _ => length (Issues.runs run.1)
                 end) 10.
Proof. apply dispatch_loop_invariant. Qed.

Lemma create_issues_trace_witness :
  let run := Issues.create_issues IssuesSpec.sample_tests gh_once sample_tree in
  (run.2 = Ok () →
   length (Issues.runs run.1) = length (Issues.files_of_tree sample_tree))
  ∧ (run.2 = Raise CalledProcessError → 0 < length (Issues.runs run.1))
  ∧ sleeps run.1 = [10].
Proof.
  destruct (create_issues_trace IssuesSpec.sample_tests gh_once sample_tree)
    as (_ & Hok & Hfail & Hsleeps).
  split; [exact Hok|]. split; [exact Hfail|]. exact Hsleeps.
Defined.

Lemma re_search_sound s g :
  Issues.re_search Issues.desc_pattern s = Some g →
  ∃ pre post,
    s = pre +:+ IssuesSpec.desc_open +:+ g +:+ String Str.dquote post
    ∧ Str.count Str.dquote g = 0 ∧ Str.count Str.newline g = 0.
Proof.
  induction s as [|a s IH]; rw IssuesFacts.re_search_eq.
  - destruct (Issues.match_here Issues.desc_pattern "") as [g'|] eqn:E; [|done].
    intros [= ->]. apply IssuesFacts.match_desc_pattern in E as (post & Hs & ? & ?).
    by exists "", post.
  - destruct (Issues.match_here Issues.desc_pattern (String a s)) as [g'|] eqn:E.
    + intros [= ->].
      apply IssuesFacts.match_desc_pattern in E as (post & Hs & ? & ?).
      by exists "", post.
    + intros (pre & post & -> & ? & ?)%IH. by exists (String a pre), post.
Qed.

(** X17. The description the issue script takes from a header is either
    the text Unknown description or a text that stands in the header
    between [desc=] with a quote and a quote; in both cases it has no
    newline and no quote, so a task stays on one line of the list. *)
Theorem header_description_one_line header :
  (Issues.header_description header = "Unknown description"
   ∨ ∃ pre post,
       header = pre +:+ IssuesSpec.desc_open
                +:+ Issues.header_description header +:+ String Str.dquote post)
  ∧ Str.count Str.newline (Issues.header_description header) = 0
  ∧ Str.count Str.dquote (Issues.header_description header) = 0.
Proof.
  unfold Issues.header_description.
  destruct (Issues.re_search Issues.desc_pattern header) as [g|] eqn:E.
  - apply re_search_sound in E as (pre & post & Hh & Hq & Hn).
    split; [right; by exists pre, post|done].
  - split; [by left|]. by vm_compute.
Qed.

(** ** The feature list script *)

Lemma drop_append_length (a b : string) :
  Str.drop (String.length a) (a +:+ b) = b.
Proof. induction a as [|c a IH]; simpl; [by destruct b|done]. Qed.

Lemma split_once_shape sep s :
  Features.split_once sep s = [s]
  ∨ ∃ before after, Features.split_once sep s = [before; after].
Proof.
  destruct s as [|c s]; simpl.
  - destruct (Str.startswith "" sep); [right; eauto|by left].
  - destruct (Str.startswith (String c s) sep); [right; eauto|].
    destruct (Features.split_once sep s) as [|a [|b [|??]]]; eauto.
Qed.

Lemma split_once_found sep s before after :
  Features.split_once sep s = [before; after] →
  s = before +:+ sep +:+ after
  ∧ ∀ before' after',
      s = before' +:+ sep +:+ after' →
      (String.length before ≤ String.length before')%nat.
Proof.
  revert before. induction s as [|c s IH]; intros before.
  - cbn [Features.split_once]. destruct (Str.startswith "" sep) eqn:E; [|done].
    intros [= <- <-]. apply startswith_spec in E as [rest E].
    split; [|simpl; lia]. destruct sep; [done|by simpl in E].
  - cbn [Features.split_once].
    destruct (Str.startswith (String c s) sep) eqn:E.
    + intros [= <- <-]. apply startswith_spec in E as [rest E].
      split; [|simpl; lia]. rw E. by rw drop_append_length.
    + destruct (Features.split_once sep s) as [|a [|b [|??]]] eqn:Es; try done.
      intros [= <- <-]. destruct (IH a eq_refl) as [-> Hfirst].
      split; [done|]. intros [|c' before'] after' Hs.
      * simpl in Hs. assert (Str.startswith (String c (a +:+ sep +:+ b)) sep = true) as E'.
        { apply startswith_spec. by exists after'. }
        by rw E in E'.
      * simpl in Hs. injection Hs as <- Hs. simpl.
        specialize (Hfirst before' after' Hs). lia.
Qed.

Lemma split_once_is_substring sep s :
  is_substring sep s →
  ∃ before after, Features.split_once sep s = [before; after].
Proof.
  intros (pre & post & ->). induction pre as [|c pre IH].
  - exists "", (Str.drop (String.length sep) (sep +:+ post)).
    assert (Str.startswith (sep +:+ post) sep = true) as E.
    { apply startswith_spec. by exists post. }
    simpl. destruct (sep +:+ post) eqn:Es; simpl; by rw E.
  - destruct IH as (a & b & IH). simpl.
    destruct (Str.startswith (String c (pre +:+ sep +:+ post)) sep);
      [eauto|].
    rw IH. eauto.
Qed.

Lemma split_once_first sep s :
  is_substring sep s →
  ∃ before after,
    Features.split_once sep s = [before; after]
    ∧ s = before +:+ sep +:+ after
    ∧ ∀ before' after',
        s = before' +:+ sep +:+ after' →
        (String.length before ≤ String.length before')%nat.
Proof.
  intros (before & after & Hs)%split_once_is_substring.
  exists before, after. split; [done|]. by apply split_once_found.
Qed.

Lemma split_once_absent sep s :
  ¬ is_substring sep s → Features.split_once sep s = [s].
Proof.
  intros Hno. destruct (split_once_shape sep s) as [|(a & b & Hs)]; [done|].
  destruct Hno. apply split_once_found in Hs as [-> _]. by exists a, b.
Qed.



Lemma print_features_good good :
  Forall (is_substring ": ") good →
  ∃ out,
    Forall2 feature_bullet good out
    ∧ Features.print_features good = (out, None)
    ∧ ∀ bad rest,
        ¬ is_substring ": " bad →
        Features.print_features (good ++ bad :: rest) = (out, Some ValueError).
Proof.
  induction 1 as [|line good Hline _ (out & Hall & Hok & Hbad)].
  - exists []. split; [constructor|]. split; [done|].
    intros bad rest Hno. cbn [app Features.print_features].
    by rw (split_once_absent ": " bad Hno).
  - destruct (split_once_first ": " line Hline)
      as (feature_name & desc & Hs & Hl & Hfirst).
    exists (Features.bullet feature_name desc :: out). split_and!.
    + constructor; [by exists feature_name, desc|done].
    + cbn [Features.print_features]. by rw Hs Hok.
    + intros bad rest Hno. cbn [app Features.print_features].
      by rw Hs (Hbad bad rest Hno).
Qed.

(** X19. [main] of the feature list prints one bullet per line of the
    output of the binary, in order, as long as the lines have a colon
    with a space: if all lines do, it ends normally; at the first line
    that does not, it ends with [ValueError], the bullets of the lines
    before being already printed.  When the binary exits with another
    status than 0 nothing is printed and [CalledProcessError] is raised. *)
Theorem list_features_output text good :
  Forall (is_substring ": ") good →
  ∃ out,
    Forall2 feature_bullet good out
    ∧ (Features.splitlines text = good →
       Features.main (Features.Exited 0 (Some text)) = (out, None))
    ∧ (∀ bad rest,
         ¬ is_substring ": " bad →
         Features.splitlines text = (good ++ bad :: rest)%list →
         Features.main (Features.Exited 0 (Some text)) = (out, Some ValueError))
    ∧ (∀ returncode stdout,
         returncode ≠ 0%Z →
         Features.main (Features.Exited returncode stdout)
         = ([], Some CalledProcessError)).
Proof.
  intros (out & Hall & Hok & Hbad)%print_features_good.
  exists out. split_and!; [done| | |].
  - intros Hs. simpl. by rw Hs.
  - intros bad rest Hno Hs. simpl. rw Hs. by apply Hbad.
  - intros returncode stdout Hne. unfold Features.main.
    by rw bool_decide_false.
Qed.

Lemma list_features_output_witness :
  let text := "chflags: needs chflags" +:+ String Str.newline ""
              +:+ "no description" +:+ String Str.newline ""
              +:+ "utimensat: needs utimensat" in
  ∃ out,
    Forall2 feature_bullet ["chflags: needs chflags"] out
    ∧ Features.main (Features.Exited 0 (Some text)) = (out, Some ValueError).
Proof.
  destruct (list_features_output
              ("chflags: needs chflags" +:+ String Str.newline ""
               +:+ "no description" +:+ String Str.newline ""
               +:+ "utimensat: needs utimensat")
              ["chflags: needs chflags"]) as (out & Hall & _ & Hbad & _).
  { repeat constructor. by exists "chflags", "needs chflags". }
  exists out. split; [done|].
  apply (Hbad "no description" ["utimensat: needs utimensat"]).
  - intros Hs%contains_spec. vm_compute in Hs. discriminate Hs.
  - vm_compute. reflexivity.
Defined.

Lemma one_line_nil : one_line "".
Proof. intros pre c post Hs. by destruct pre. Qed.

Lemma one_line_cons c s :
  Features.is_linebreak c = false → one_line s → one_line (String c s).
Proof.
  intros Hc Hs [|a pre] c' post Heq; simpl in Heq.
  - by injection Heq as <- _.
  - injection Heq as <- Heq. by apply (Hs pre c' post).
Qed.

Lemma splitlines_one_line_bounded n s :
  (String.length s ≤ n)%nat → Forall one_line (Features.splitlines s).
Proof.
  revert s. induction n as [|n IH]; intros s Hl.
  { destruct s; [constructor|simpl in Hl; lia]. }
  destruct s as [|c s]; [constructor|]. simpl in Hl.
  cbn [Features.splitlines].
  destruct (Features.is_linebreak c) eqn:Ec.
  - destruct s as [|c' s]; [repeat constructor; apply one_line_nil|].
    simpl in Hl.
    destruct (bool_decide (c = Features.carriage_return)
              && bool_decide (c' = Str.newline)).
    + constructor; [apply one_line_nil|]. apply IH. lia.
    + constructor; [apply one_line_nil|]. apply IH. simpl. lia.
  - specialize (IH s ltac:(lia)).
    destruct (Features.splitlines s) as [|l ls].
    + repeat constructor. by apply one_line_cons, one_line_nil.
    + apply Forall_cons in IH as [Hl' Hls]. constructor; [|done].
      by apply one_line_cons.
Qed.

(** X20. No line that [splitlines] gives contains a line boundary, so the
    name and the description of a bullet never contain one. *)
Theorem splitlines_one_line s : Forall one_line (Features.splitlines s).
Proof. by apply (splitlines_one_line_bounded (String.length s)). Qed.

(** ** Reading lines, and the manifest back from its tuples *)

Lemma readlines_lines s :
  Forall (λ line, line ≠ ""
                  ∧ ∀ pre post, line = pre +:+ String Str.newline post → post = "")
         (Str.readlines s).
Proof.
  induction s as [|c s IH]; [constructor|]. cbn [Str.readlines].
  case_bool_decide as Hc.
  - constructor; [|done]. split; [done|]. intros [|a pre] post Hs.
    + simpl in Hs. by injection Hs as _ <-.
    + simpl in Hs. injection Hs as _ Hs. by destruct pre.
  - destruct (Str.readlines s) as [|l ls].
    + constructor; [|done]. split; [done|]. intros [|a pre] post Hs.
      * simpl in Hs. by injection Hs as ->.
      * simpl in Hs. injection Hs as _ Hs. by destruct pre.
    + apply Forall_cons in IH as [[_ Hl] Hls]. constructor; [|done].
      split; [done|]. intros [|a pre] post Hs.
      * simpl in Hs. by injection Hs as -> _.
      * simpl in Hs. injection Hs as _ Hs. by apply (Hl pre).
Qed.

(** X21. The lines a file is read in, put end to end, are the content of
    the file; no line is empty, and a line has no newline except as its
    last character. *)
Theorem readlines_spec s :
  String.concat "" (Str.readlines s) = s
  ∧ Forall (λ line, line ≠ ""
                    ∧ ∀ pre post,
                        line = pre +:+ String Str.newline post → post = "")
           (Str.readlines s).
Proof. split; [apply readlines_concat|apply readlines_lines]. Qed.

(** X22. The manifest reader loses nothing: it yields one tuple per line,
    and joining the fields of each tuple with tabs and putting the results
    end to end gives the content of the manifest back. *)
Theorem manifest_round_trip fs tests_list content :
  fs !! tests_list = Some content →
  ∃ records,
    get_tests_filenames_from_spec fs tests_list = Ok records
    ∧ length records = length (Str.readlines content)
    ∧ String.concat "" (String.concat (String Str.tab "") <$> records)
      = content.
Proof.
  intros Hc. exists (Str.split Str.tab <$> Str.readlines content).
  unfold get_tests_filenames_from_spec, open. rw Hc. split; [done|].
  split; [apply length_fmap|].
  rw -list_fmap_compose -{2}(readlines_concat content). f_equal.
  rw -{2}(list_fmap_id (Str.readlines content)).
  apply list_fmap_ext. intros i line _. apply split_concat.
Qed.

Lemma manifest_round_trip_witness :
  ∃ records,
    get_tests_filenames_from_spec sample_files tests_dir = Ok records
    ∧ length records
      = length (Str.readlines (tab_line "open/01.t" "Opens a file"
                               +:+ tab_line "open/02.t" "Opens a dir"))
    ∧ String.concat "" (String.concat (String Str.tab "") <$> records)
      = tab_line "open/01.t" "Opens a file" +:+ tab_line "open/02.t" "Opens a dir".
Proof. apply manifest_round_trip. vm_compute. reflexivity. Defined.

(** ** The sort of the report *)

Lemma insert_by_filter {A} (key : A → string) k x l :
  filter (λ y, key y = k) (insert_by key x l)
  = filter (λ y, key y = k) (x :: l).
Proof.
  induction l as [|y l IH]; [done|]. cbn [insert_by].
  destruct (String.leb (key x) (key y)) eqn:E; [done|].
  rw (filter_cons _ y) IH !filter_cons.
  destruct (decide (key x = k)) as [Hx|Hx]; [|done].
  destruct (decide (key y = k)) as [Hy|Hy]; [|done].
  assert (String.le (key x) (key y)) as Hle.
  { rw Hx Hy. done. }
  unfold String.le in Hle. by rw E in Hle.
Qed.

(** X23. The sort the report uses for the syscalls and for the tests of a
    syscall rearranges the list, makes the keys ascend, and is stable:
    the elements that have the same key keep the order they had. *)
Theorem sorted_by_stable {A} (key : A → string) (l : list A) :
  sorted_by key l ≡ₚ l
  ∧ StronglySorted String.le (key <$> sorted_by key l)
  ∧ ∀ k, filter (λ x, key x = k) (sorted_by key l)
         = filter (λ x, key x = k) l.
Proof.
  split; [apply sorted_by_Permutation|]. split; [apply sorted_by_keys|].
  intros k. induction l as [|x l IH]; [done|].
  cbn [sorted_by foldr]. fold (sorted_by key l).
  rw insert_by_filter !filter_cons. by rw IH.
Qed.
